(** * node-iconv: the conversion-buffer engine of [src/iconv.cc]

    A shallow embedding of the C++ binding: the growable output buffer
    ([grow]), the conversion driver ([convert]), the error classification
    of [Iconv::Convert], the encoding-name fixup ([fixEncodingName]) and the
    constructor ([Iconv::New]).

    The C library ([realloc], [free], [errno]) and libiconv ([iconv_open],
    [iconv]) are not part of the repository.  The allocator is modelled by a
    block heap with an oracle that decides which requests succeed and which
    blocks move; libiconv is a parameter of the development (record
    [iconv_library]). *)

From Stdlib Require Import ZArith Lia.
From Stdlib.Strings Require Import Byte Ascii.
From stdpp Require Import base numbers option list gmap strings.

Local Open Scope Z_scope.

(** ** Machine constants *)

(** [size_t] is a 64-bit unsigned integer; its arithmetic wraps modulo
    [SIZE_MOD]. *)
Definition SIZE_MOD : Z := 2 ^ 64.

(** No object is larger than [PTRDIFF_MAX] bytes: the allocator refuses
    bigger requests. *)
Definition PTRDIFF_MAX : Z := 2 ^ 63 - 1.

Definition size_t (n : Z) : Z := n mod SIZE_MOD.

(** [errno] values (Linux numbering). *)
Definition E2BIG : Z := 7.
Definition EBADF : Z := 9.
Definition ENOMEM : Z := 12.
Definition EINVAL : Z := 22.
Definition EILSEQ : Z := 84.

(** ** Pointers and the heap *)

(** A [char*] is null or points [off] bytes into the heap block [b]. *)
Inductive ptr : Type :=
| Null
| Ptr (b : nat) (off : Z).

Definition is_null (p : ptr) : bool :=
  match p with Null => true | Ptr _ _ => false end.

(** [p + n]. *)
Definition ptr_add (p : ptr) (n : Z) : ptr :=
  match p with
  | Null => Null
  | Ptr b off => Ptr b (off + n)
  end.

(** [p - q]; C defines it for two pointers into one block (and, in C++,
    for two null pointers).  The other cases are left at the difference of
    the offsets. *)
Definition ptr_off (p : ptr) : Z :=
  match p with Null => 0 | Ptr _ off => off end.

Definition ptr_diff (p q : ptr) : Z := ptr_off p - ptr_off q.

(** The result of one call of [iconv]: [(size_t) -1] together with an
    [errno], or the count of non-reversible conversions. *)
Inductive iconv_rv : Type :=
| Converted (n : Z)
| Failed (e : Z).

Definition is_failed (rv : iconv_rv) : bool :=
  match rv with Failed _ => true | Converted _ => false end.

(** Calls into the C library and into libiconv, in the order they are made. *)
Inductive event : Type :=
| EvRealloc (p : ptr) (n : Z) (r : ptr)
| EvFree (p : ptr)
| EvOpen (tocode fromcode : string) (r : option nat)
| EvIconv (cd : nat) (inp : option (list byte)) (room : option Z)
          (produced : list byte) (rv : iconv_rv)
| EvLowMemoryNotification.

(** ** libiconv as a parameter *)

Record iconv_out (S : Type) : Type := IconvOut {
  io_state : S;
  io_consumed : Z;
  io_produced : list byte;
  io_rv : iconv_rv
}.
Arguments IconvOut {S} _ _ _ _.
Arguments io_state {S} _.
Arguments io_consumed {S} _.
Arguments io_produced {S} _.
Arguments io_rv {S} _.

(** [lib_open tocode fromcode] is [iconv_open]: a fresh conversion state, or
    the [errno] of the failure.  [lib_iconv st inp room] is [iconv] on a
    descriptor in state [st]: [inp] is the input still to be read ([None]
    when the input side is null), [room] the free space of the output
    ([None] when the output side is null). *)
Record iconv_library : Type := IconvLibrary {
  cd_state : Type;
  lib_open : string -> string -> Z + cd_state;
  lib_iconv : cd_state -> option (list byte) -> option Z -> iconv_out cd_state
}.

(** What POSIX promises of [iconv] about its output: it never writes past
    the room it is given, and it writes nothing without an output side. *)
Record iconv_contract (L : iconv_library) : Prop := IconvContract {
  iconv_fits : forall st inp room,
    0 <= room ->
    Z.of_nat (length (io_produced (lib_iconv L st inp (Some room)))) <= room;
  iconv_no_output : forall st inp,
    io_produced (lib_iconv L st inp None) = [];
}.

(** ** The world: heap, allocator oracle, errno, descriptors, call log *)

(** [allocs] holds the answers of the allocator to the requests to come
    (granted or refused), [moves] says of each granted request whether the
    block goes to a new address. *)
Record world (S : Type) : Type := World {
  heap : gmap nat (list byte);
  allocs : list bool;
  errno : Z;
  cds : gmap nat S;
  log : list event;
  fault : bool;
  moves : list bool
}.
Arguments World {S} _ _ _ _ _ _ _.
Arguments heap {S} _.
Arguments allocs {S} _.
Arguments errno {S} _.
Arguments cds {S} _.
Arguments log {S} _.
Arguments fault {S} _.
Arguments moves {S} _.

Definition set_heap {S} (h : gmap nat (list byte)) (w : world S) : world S :=
  World h (allocs w) (errno w) (cds w) (log w) (fault w) (moves w).
Definition set_allocs {S} (a : list bool) (w : world S) : world S :=
  World (heap w) a (errno w) (cds w) (log w) (fault w) (moves w).
Definition set_errno {S} (e : Z) (w : world S) : world S :=
  World (heap w) (allocs w) e (cds w) (log w) (fault w) (moves w).
Definition set_cds {S} (c : gmap nat S) (w : world S) : world S :=
  World (heap w) (allocs w) (errno w) c (log w) (fault w) (moves w).
Definition add_log {S} (e : event) (w : world S) : world S :=
  World (heap w) (allocs w) (errno w) (cds w) (log w ++ [e]) (fault w) (moves w).
Definition set_fault {S} (w : world S) : world S :=
  World (heap w) (allocs w) (errno w) (cds w) (log w) true (moves w).
Definition set_moves {S} (m : list bool) (w : world S) : world S :=
  World (heap w) (allocs w) (errno w) (cds w) (log w) (fault w) m.

(** ** A state monad over the world *)

Definition M (S A : Type) : Type := world S -> A * world S.

Definition ret {S A} (x : A) : M S A := fun w => (x, w).

Definition bind {S A B} (m : M S A) (k : A -> M S B) : M S B :=
  fun w => let (x, w1) := m w in k x w1.

Declare Scope m_scope.
Delimit Scope m_scope with M.
Notation "x <- m ;; k" := (bind m (fun x => k))
  (at level 100, m at next level, right associativity) : m_scope.

Definition get_errno {S} : M S Z := fun w => (errno w, w).
Definition modify {S} (f : world S -> world S) : M S unit := fun w => (tt, f w).

(** ** The allocator *)

(** The bytes of the block that [p] owns: a pointer handed to [realloc] or
    [free] is null or the start of a live block. *)
Definition owned (h : gmap nat (list byte)) (p : ptr) : option (list byte) :=
  match p with
  | Null => Some []
  | Ptr b off => if decide (off = 0) then h !! b else None
  end.

Definition release (h : gmap nat (list byte)) (p : ptr) : gmap nat (list byte) :=
  match p with
  | Null => h
  | Ptr b _ => delete b h
  end.

(** A block that is not live. *)
Definition fresh_block (h : gmap nat (list byte)) : nat := fresh (dom h).

(** Where [realloc] puts the block: a block that is resized stays where it
    is unless the oracle [mv] moves it, to an address that no live block
    has; without an old block the address is new. *)
Definition place (mv : list bool) (h : gmap nat (list byte)) (p : ptr) : nat :=
  match p, mv with
  | Ptr b _, [] | Ptr b _, false :: _ => b
  | _, _ => fresh_block h
  end.
Arguments place : simpl never.

(** The contents of a block of [n] bytes that takes over [old]; the bytes
    past [old] are indeterminate and read as [junk]. *)
Definition resized (junk : byte) (old : list byte) (n : Z) : list byte :=
  take (Z.to_nat n) old ++ replicate (Z.to_nat n - length old)%nat junk.

(** ** C strings and [fixEncodingName] (iconv.cc, lines 179-205) *)

(** An encoding name is a C string: the characters before the terminating
    NUL, none of which is NUL. *)
Definition code (c : ascii) : Z := Z.of_N (Ascii.N_of_ascii c).

Definition tolower (c : ascii) : ascii :=
  if (65 <=? code c) && (code c <=? 90)
  then Ascii.ascii_of_N (Ascii.N_of_ascii c + 32)
  else c.

(** The sign of the first difference, as [strcmp] gives it. *)
Definition cmp_char (c d : ascii) : Z :=
  if code c <? code d then -1 else if code d <? code c then 1 else 0.

Fixpoint strcmp (a b : string) : Z :=
  match a, b with
  | EmptyString, EmptyString => 0
  | EmptyString, String _ _ => -1
  | String _ _, EmptyString => 1
  | String c a, String d b =>
    if cmp_char c d =? 0 then strcmp a b else cmp_char c d
  end.

Fixpoint strcasecmp (a b : string) : Z :=
  match a, b with
  | EmptyString, EmptyString => 0
  | EmptyString, String _ _ => -1
  | String _ _, EmptyString => 1
  | String c a, String d b =>
    if cmp_char (tolower c) (tolower d) =? 0 then strcasecmp a b
    else cmp_char (tolower c) (tolower d)
  end.

Fixpoint strncasecmp (a b : string) (n : nat) {struct n} : Z :=
  match n with
  | O => 0
  | S n =>
    match a, b with
    | EmptyString, EmptyString => 0
    | EmptyString, String _ _ => -1
    | String _ _, EmptyString => 1
    | String c a, String d b =>
      if cmp_char (tolower c) (tolower d) =? 0 then strncasecmp a b n
      else cmp_char (tolower c) (tolower d)
    end
  end.

(** [name[k]], the terminating NUL included. *)
Definition char_at (name : string) (k : nat) : ascii :=
  default Ascii.zero (String.get k name).

(** [&name[k]]. *)
Fixpoint str_from (name : string) (k : nat) : string :=
  match k, name with
  | O, _ => name
  | S k, String _ name => str_from name k
  | S _, EmptyString => EmptyString
  end.

Definition fixEncodingName (name : string) : string :=
  if (strncasecmp name "UTF" 3 =? 0) && negb (Ascii.eqb (char_at name 3) "-")
  then
    match str_from name 3 with
    | String "1" s =>
      if strcmp s "6" =? 0 then "UTF-16"
      else if strcasecmp s "6LE" =? 0 then "UTF-16LE"
      else if strcasecmp s "6BE" =? 0 then "UTF-16BE"
      else name
    | String "3" s =>
      if strcmp s "2" =? 0 then "UTF-32"
      else if strcasecmp s "2LE" =? 0 then "UTF-32LE"
      else if strcasecmp s "2BE" =? 0 then "UTF-32BE"
      else name
    | String "7" s =>
      match s with EmptyString => "UTF-7" | _ => name end
    | String "8" s =>
      match s with EmptyString => "UTF-8" | _ => name end
    | _ => name
    end
  else name.

(** ** Values of the binding *)

(** [ErrnoException(errorno, syscall, msg)]. *)
Record exception : Type := ErrnoException {
  exn_errno : Z;
  exn_syscall : string;
  exn_msg : option string
}.

(** What a method of the binding hands back to JavaScript. *)
Inductive value : Type :=
| Buffer_New (data : ptr) (length : Z)
| ThrowException (e : exception)
| Undefined
| This (conv : nat).

(** V8 strings are not part of the repository: their type and the two
    conversions that the binding uses are parameters.  [Utf8Value s] is the
    byte array of [String::Utf8Value], with its length; [AsciiValue s] is
    the C string that [*String::AsciiValue] points to. *)
Record v8_strings : Type := V8Strings {
  js_string : Type;
  Utf8Value : js_string -> list byte;
  AsciiValue : js_string -> string
}.

(** The argument of [convert] as the binding tells the cases apart. *)
Inductive js_arg (V : v8_strings) : Type :=
| JsString (s : js_string V)
| JsBuffer (data : list byte)
| JsObject
| JsOther.
Arguments JsString {V} _.
Arguments JsBuffer {V} _.
Arguments JsObject {V}.
Arguments JsOther {V}.

Section Engine.

Variable L : iconv_library.
Variable junk : byte.
Variable V : v8_strings.

Local Abbreviation W := (world (cd_state L)).
Local Abbreviation Mon := (M (cd_state L)).

Local Open Scope m_scope.

(** [realloc(p, n)], as the GNU C library does it.  With a block [p] and
    [n = 0] the block is freed and null is returned; [errno] is not
    touched.  Any other request succeeds when the oracle says so and [n]
    does not exceed [PTRDIFF_MAX]: the block keeps its first [min(old, n)]
    bytes and stays where it is or moves, as the oracle says, and when it
    moves the old block is gone.  The request fails otherwise: null is
    returned, [errno] is [ENOMEM] and the old block is untouched.  Passing
    a pointer that does not own a block is undefined behaviour, recorded in
    [fault]. *)
Definition realloc (p : ptr) (n : Z) : Mon ptr := fun w =>
  match owned (heap w) p with
  | None => (Null, set_fault (add_log (EvRealloc p n Null) w))
  | Some old =>
    if negb (is_null p) && (n =? 0) then
      (Null, add_log (EvRealloc p n Null) (set_heap (release (heap w) p) w))
    else
      let granted :=
        match allocs w with
        | a :: _ => a && (n <=? PTRDIFF_MAX)
        | [] => false
        end in
      let w := set_allocs (tail (allocs w)) w in
      if granted then
        let b := place (moves w) (heap w) p in
        let w := set_moves (tail (moves w)) w in
        (Ptr b 0,
         add_log (EvRealloc p n (Ptr b 0))
           (set_heap (<[b := resized junk old n]> (release (heap w) p)) w))
      else
        (Null, add_log (EvRealloc p n Null) (set_errno ENOMEM w))
  end.

(** [free(p)]. *)
Definition free (p : ptr) : Mon unit := fun w =>
  match owned (heap w) p with
  | None => (tt, set_fault (add_log (EvFree p) w))
  | Some _ => (tt, add_log (EvFree p) (set_heap (release (heap w) p) w))
  end.

(** Writing [bs] through the pointer [p]; outside a live block this is
    undefined behaviour. *)
Definition store (p : ptr) (bs : list byte) : Mon unit := fun w =>
  match bs, p with
  | [], _ => (tt, w)
  | _, Ptr b off =>
    match heap w !! b with
    | Some old =>
      if (0 <=? off) && (off + Z.of_nat (length bs) <=? Z.of_nat (length old)) then
        let new := take (Z.to_nat off) old ++ bs
                   ++ drop (Z.to_nat off + length bs)%nat old in
        (tt, set_heap (<[b := new]> (heap w)) w)
      else (tt, set_fault w)
    | None => (tt, set_fault w)
    end
  | _, Null => (tt, set_fault w)
  end.

(** ** [grow] (iconv.cc, lines 41-57) *)

(** The four variables that [grow] and [iconv] update through pointers. *)
Record outvars : Type := OutVars {
  output : ptr;
  outlen : Z;
  outbuf : ptr;
  outbufsz : Z
}.

Definition grow (v : outvars) : Mon (Z * outvars) :=
  let newlen := if outlen v =? 0 then 16 else size_t (outlen v * 2) in
  newptr <- realloc (output v) newlen ;;
  if is_null newptr then ret (0, v)
  else
    ret (1, {| outbufsz := size_t (newlen - outlen v);
               outbuf := ptr_add newptr (ptr_diff (outbuf v) (output v));
               outlen := newlen;
               output := newptr |}).

(** ** [iconv] *)

(** [iconv(cd, inbuf, inbytesleft, outbuf, outbytesleft)]: [inp] is the
    input the call may read ([None] for a null input side), [out] the write
    cursor and the room behind it ([None] for a null output side).  Returns
    the result, the number of bytes read and the number of bytes written; the
    callers move their cursors by these.  On a descriptor that is not open
    the call fails with [EBADF]. *)
Definition iconv (cd : nat) (inp : option (list byte)) (out : option (ptr * Z))
  : Mon (iconv_rv * Z * Z) := fun w =>
  match cds w !! cd with
  | None =>
    ((Failed EBADF, 0, 0),
     add_log (EvIconv cd inp (snd <$> out) [] (Failed EBADF)) (set_errno EBADF w))
  | Some st =>
    let r := lib_iconv L st inp (snd <$> out) in
    let w := set_cds (<[cd := io_state r]> (cds w)) w in
    let w := match io_rv r with Failed e => set_errno e w | Converted _ => w end in
    let w := snd (store (from_option fst Null out) (io_produced r) w) in
    ((io_rv r, io_consumed r, Z.of_nat (length (io_produced r))),
     add_log (EvIconv cd inp (snd <$> out) (io_produced r) (io_rv r)) w)
  end.

(** The output variables after a call of [iconv] that wrote [n] bytes:
    [outbuf] has moved on and [outbufsz] has shrunk by [n]. *)
Definition advance (o : outvars) (n : Z) : outvars :=
  {| output := output o; outlen := outlen o;
     outbuf := ptr_add (outbuf o) n;
     outbufsz := size_t (outbufsz o - n) |}.

(** The read cursor: an offset into the input and the bytes left. *)
Record invars : Type := InVars {
  inbuf : Z;
  inbufsz : Z
}.

(** [iconv(iv, 0, 0, 0, 0)]: back to the initial shift state. *)
Definition iconv_reset (iv : nat) : Mon iconv_rv :=
  r <- iconv iv None None ;;
  ret (fst (fst r)).

(** [iconv(iv, &inbuf, &inbufsz, &outbuf, &outbufsz)]. *)
Definition iconv_input (iv : nat) (input : list byte) (i : invars) (o : outvars)
  : Mon (iconv_rv * invars * outvars) :=
  r <- iconv iv
         (Some (take (Z.to_nat (inbufsz i)) (drop (Z.to_nat (inbuf i)) input)))
         (Some (outbuf o, outbufsz o)) ;;
  let '(rv, consumed, produced) := r in
  ret (rv,
       {| inbuf := inbuf i + consumed; inbufsz := size_t (inbufsz i - consumed) |},
       advance o produced).

(** [iconv(iv, 0, 0, &outbuf, &outbufsz)]: write out the shift sequence. *)
Definition iconv_flush (iv : nat) (o : outvars) : Mon (iconv_rv * outvars) :=
  r <- iconv iv None (Some (outbuf o, outbufsz o)) ;;
  let '(rv, _, produced) := r in
  ret (rv, advance o produced).

(** ** [convert] (iconv.cc, lines 62-124) *)

(** The [do ... while] loop of lines 79-87.  Each round calls [grow], which
    uses up one answer of the allocator's oracle, and [grow] fails once the
    oracle is empty: [convert] runs the loop with one unit of fuel more than
    there are answers, so that the fuel never runs out ([convert_loop_fuel]).
    [None] stands for the jump to [error] of line 84. *)
Fixpoint convert_loop (fuel : nat) (iv : nat) (input : list byte)
    (i : invars) (o : outvars) : Mon (option iconv_rv * invars * outvars) :=
  match fuel with
  | O => ret (None, i, o)
  | S fuel =>
    g <- grow o ;;
    let '(ok, o) := g in
    if ok =? 0 then ret (None, i, o)
    else
      r <- iconv_input iv input i o ;;
      let '(rv, i, o) := r in
      e <- get_errno ;;
      if is_failed rv && (e =? E2BIG) then convert_loop fuel iv input i o
      else ret (Some rv, i, o)
  end.

(** Lines 119-123, the [error] label. *)
Definition convert_error (o : outvars) : Mon (Z * ptr * Z) :=
  _ <- free (output o) ;;
  ret (0, Null, 0).

(** Lines 108-117: store the length and release the unused tail. *)
Definition convert_finish (o : outvars) : Mon (Z * ptr * Z) :=
  let len := size_t (ptr_diff (outbuf o) (output o)) in
  p <- realloc (output o) len ;;
  ret (1, if is_null p then output o else p, len).

(** Lines 93-106: write out the shift sequence. *)
Definition convert_shift (iv : nat) (o : outvars) : Mon (Z * ptr * Z) :=
  r <- iconv_flush iv o ;;
  let '(rv, o) := r in
  if is_failed rv then
    e <- get_errno ;;
    if negb (e =? E2BIG) then convert_error o
    else
      g <- grow o ;;
      let '(ok, o) := g in
      if ok =? 0 then convert_error o
      else
        r <- iconv_flush iv o ;;
        let '(rv, o) := r in
        if is_failed rv then convert_error o else convert_finish o
  else convert_finish o.

(** Returns the return value together with [*output] and [*outlen]. *)
Definition convert (iv : nat) (input : list byte) : Mon (Z * ptr * Z) :=
  let i := {| inbuf := 0; inbufsz := Z.of_nat (length input) |} in
  let o := {| output := Null; outlen := 0; outbuf := Null; outbufsz := 0 |} in
  _ <- iconv_reset iv ;;
  r <- (fun w => convert_loop (S (length (allocs w))) iv input i o w) ;;
  let '(rv, _, o) := r in
  match rv with
  | None => convert_error o
  | Some rv => if is_failed rv then convert_error o else convert_shift iv o
  end.

(** ** [Iconv::Convert] (iconv.cc, lines 132-177) *)

Definition LowMemoryNotification : Mon unit :=
  modify (add_log EvLowMemoryNotification).

(** [Iconv::Convert(char* input, size_t inlen)]; [self] is [conv_]. *)
Definition Iconv_Convert (self : nat) (input : list byte) : Mon value :=
  r <- convert self input ;;
  let '(ok, output, outlen) := r in
  if negb (ok =? 0) then ret (Buffer_New output outlen)
  else
    e <- get_errno ;;
    if e =? EINVAL then
      ret (ThrowException
             (ErrnoException EINVAL "iconv" (Some "Incomplete character sequence.")))
    else if e =? EILSEQ then
      ret (ThrowException
             (ErrnoException e "iconv" (Some "Illegal character sequence.")))
    else if e =? ENOMEM then
      _ <- LowMemoryNotification ;;
      ret (ThrowException (ErrnoException e "iconv" (Some "Out of memory.")))
    else
      ret (ThrowException (ErrnoException e "iconv" None)).

(** [Iconv::Convert(const Arguments& args)] on [args[0]]. *)
Definition Iconv_Convert_args (self : nat) (arg : js_arg V) : Mon value :=
  match arg with
  | JsString s => Iconv_Convert self (Utf8Value V s)
  | JsBuffer data => Iconv_Convert self data
  | JsObject | JsOther => ret Undefined
  end.

(** ** [Iconv::New] (iconv.cc, lines 207-226) *)

(** [iconv_open(tocode, fromcode)]: a new descriptor, or [(iconv_t) -1]
    ([None]) with [errno] set. *)
Definition iconv_open (tocode fromcode : string) : Mon (option nat) := fun w =>
  match lib_open L tocode fromcode with
  | inl e =>
    (None, add_log (EvOpen tocode fromcode None) (set_errno e w))
  | inr st =>
    let cd := fresh (dom (cds w)) in
    (Some cd,
     add_log (EvOpen tocode fromcode (Some cd)) (set_cds (<[cd := st]> (cds w)) w))
  end.

(** [args[0]] and [args[1]] after [ToString]. *)
Definition Iconv_New (arg0 arg1 : js_string V) : Mon value :=
  let sourceEncoding := AsciiValue V arg0 in
  let targetEncoding := AsciiValue V arg1 in
  conv <- iconv_open (fixEncodingName targetEncoding)
                     (fixEncodingName sourceEncoding) ;;
  match conv with
  | None =>
    e <- get_errno ;;
    ret (ThrowException
           (ErrnoException e "iconv_open" (Some "Conversion not supported.")))
  | Some conv => ret (This conv)
  end.

End Engine.

(** ** A small iconv library to run the engine on

    Two target families: a stateless one that copies its input, and a
    stateful one ("SHIFT") that brackets its output between the bytes [0e]
    and [0f].  In the input, [ff] is illegal and [c3] starts a two-byte
    character. *)

Record toy_state : Type := ToyState {
  toy_stateful : bool;
  toy_shifted : bool
}.

Fixpoint toy_copy (inp : list byte) (room : nat) (consumed : Z) (out : list byte)
  : Z * list byte * iconv_rv :=
  match inp with
  | [] => (consumed, out, Converted 0)
  | c :: rest =>
    if Byte.eqb c xff then (consumed, out, Failed EILSEQ)
    else if Byte.eqb c xc3 then
      match rest with
      | [] => (consumed, out, Failed EINVAL)
      | d :: rest =>
        match room with
        | S (S room) => toy_copy rest room (consumed + 2) (out ++ [c; d])
        | _ => (consumed, out, Failed E2BIG)
        end
      end
    else
      match room with
      | S room => toy_copy rest room (consumed + 1) (out ++ [c])
      | O => (consumed, out, Failed E2BIG)
      end
  end.

Definition toy_iconv (st : toy_state) (inp : option (list byte)) (room : option Z)
  : iconv_out toy_state :=
  match inp, room with
  | Some inp, Some room =>
    match inp with
    | [] => IconvOut st 0 [] (Converted 0)
    | _ :: _ =>
      if toy_stateful st && negb (toy_shifted st) then
        if room <=? 0 then IconvOut st 0 [] (Failed E2BIG)
        else
          let '(n, out, rv) := toy_copy inp (Z.to_nat room - 1) 0 [x0e] in
          IconvOut (ToyState true true) n out rv
      else
        let '(n, out, rv) := toy_copy inp (Z.to_nat room) 0 [] in
        IconvOut st n out rv
    end
  | None, Some room =>
    if toy_shifted st then
      if room <=? 0 then IconvOut st 0 [] (Failed E2BIG)
      else IconvOut (ToyState (toy_stateful st) false) 0 [x0f] (Converted 0)
    else IconvOut st 0 [] (Converted 0)
  | _, None => IconvOut (ToyState (toy_stateful st) false) 0 [] (Converted 0)
  end.

Definition toy_known (name : string) : bool :=
  bool_decide (name ∈ ["UTF-8"; "UTF-16LE"; "ASCII"; "SHIFT"]).

Definition toy_open (tocode fromcode : string) : Z + toy_state :=
  if toy_known tocode && toy_known fromcode
  then inr (ToyState (bool_decide (tocode = "SHIFT")) false)
  else inl EINVAL.

Definition toy : iconv_library := IconvLibrary toy_state toy_open toy_iconv.

(** Strings of ASCII characters as V8 strings. *)
Definition ascii_strings : v8_strings :=
  V8Strings string
    (fun s => byte_of_ascii <$> String.list_ascii_of_string s)
    (fun s => s).

(** A world with nothing allocated, the given allocator answers and one
    open descriptor, number 0; no block moves. *)
Definition toy_world (answers : list bool) (st : toy_state) : world toy_state :=
  World ∅ answers 0 {[ 0%nat := st ]} [] false [].

Definition bytes_of (s : string) : list byte :=
  byte_of_ascii <$> String.list_ascii_of_string s.

(** * Properties *)

(** ** Capacities *)

(** The capacities of a buffer that has been grown: 16, 32, 64, ... *)
Definition cap_shape (c : Z) : Prop :=
  exists k : nat, c = 16 * 2 ^ Z.of_nat k /\ c <= PTRDIFF_MAX.

(** ** The conversion buffer *)

(** The buffer before the first growth: no storage. [h0] is the heap that
    the conversion found, [acc] the bytes written so far. *)
Definition buf_null {S} (h0 : gmap nat (list byte)) (w : world S)
    (o : outvars) (acc : list byte) : Prop :=
  output o = Null /\ outbuf o = Null /\ outlen o = 0 /\ outbufsz o = 0 /\
  heap w = h0 /\ acc = [].

(** The buffer once it has storage: [output] owns a block of [outlen] bytes
    that the conversion allocated, [outbuf] points into it behind the bytes
    written so far, and [outbufsz] bytes behind [outbuf] are inside it. *)
Definition buf_live {S} (h0 : gmap nat (list byte)) (w : world S)
    (o : outvars) (acc : list byte) : Prop :=
  exists b bytes,
    output o = Ptr b 0 /\ outbuf o = Ptr b (Z.of_nat (length acc)) /\
    h0 !! b = None /\ heap w = <[b := bytes]> h0 /\
    Z.of_nat (length bytes) = outlen o /\ cap_shape (outlen o) /\
    0 <= outbufsz o /\ Z.of_nat (length acc) + outbufsz o <= outlen o /\
    take (length acc) bytes = acc.

Definition buf_inv {S} (h0 : gmap nat (list byte)) (w : world S)
    (o : outvars) (acc : list byte) : Prop :=
  fault w = false /\ (buf_null h0 w o acc \/ buf_live h0 w o acc).

(** ** Traces *)

(** The bytes that the calls of [iconv] in a trace wrote. *)
Definition produced_of (evs : list event) : list byte :=
  flat_map (fun e => match e with EvIconv _ _ _ p _ => p | _ => [] end) evs.

(** The pointers that the calls of [realloc] in a trace returned. *)
Definition realloc_results (evs : list event) : list ptr :=
  flat_map (fun e => match e with EvRealloc _ _ q => [q] | _ => [] end) evs.

(** The calls that the conversion loop makes: [realloc], from [grow], and
    [iconv] with an input side and an output side. *)
Definition loop_event (iv : nat) (e : event) : Prop :=
  match e with
  | EvRealloc _ _ _ => True
  | EvIconv cd (Some _) (Some _) _ _ => cd = iv
  | _ => False
  end.

(** The [errno] that a failed call leaves behind. *)
Definition failure_signal (e : event) : option Z :=
  match e with
  | EvIconv _ _ _ _ (Failed e) => Some e
  | EvRealloc _ _ Null => Some ENOMEM
  | _ => None
  end.

(** The calls that [convert] makes once the loop has consumed the input
    (lines 93-123), with the value it returns. *)
Inductive shift_trace (iv : nat) : list event -> Z -> Prop :=
| shift_done room produced n p len q :
    shift_trace iv
      [EvIconv iv None (Some room) produced (Converted n); EvRealloc p len q] 1
| shift_failed room produced e p :
    e <> E2BIG ->
    shift_trace iv
      [EvIconv iv None (Some room) produced (Failed e); EvFree p] 0
| shift_grow_failed room produced p cap :
    shift_trace iv
      [EvIconv iv None (Some room) produced (Failed E2BIG);
       EvRealloc p cap Null; EvFree p] 0
| shift_retry_failed room produced p cap b room' produced' e :
    shift_trace iv
      [EvIconv iv None (Some room) produced (Failed E2BIG);
       EvRealloc p cap (Ptr b 0);
       EvIconv iv None (Some room') produced' (Failed e); EvFree (Ptr b 0)] 0
| shift_retry_done room produced p cap b room' produced' n len q :
    shift_trace iv
      [EvIconv iv None (Some room) produced (Failed E2BIG);
       EvRealloc p cap (Ptr b 0);
       EvIconv iv None (Some room') produced' (Converted n);
       EvRealloc (Ptr b 0) len q] 1.

(** A failed conversion: nothing is returned, the heap is as it was found
    ([h0]) and the trace ends with the failed call and the [free] of the
    buffer; [errno] is the one of the failed call. *)
Definition failed_with {S} (h0 : gmap nat (list byte)) (w' : world S)
    (r : Z * ptr * Z) (evs : list event) : Prop :=
  r = (0, Null, 0) /\ heap w' = h0 /\
  exists pre f p, evs = pre ++ [f; EvFree p] /\
                  failure_signal f = Some (errno w').

(** A successful conversion: the length returned is the number of the
    bytes [written] and the trace ends with the last flush and the
    [realloc] that trims the buffer to that length.  When bytes were
    written, the pointer returned owns a block that the conversion
    allocated and that starts with these bytes; the block has that length
    unless the [realloc] failed, and then it still has its capacity.  When
    nothing was written, that [realloc] is [realloc(p, 0)]: it has freed
    the buffer, the heap is as the conversion found it, and the pointer
    returned is the pointer [p] to the block that is gone. *)
Definition succeeded_with {S} (h0 : gmap nat (list byte)) (w' : world S)
    (r : Z * ptr * Z) (evs : list event) (written : list byte) : Prop :=
  exists b pre fl p q,
    r = (1, Ptr b 0, Z.of_nat (length written)) /\
    h0 !! b = None /\
    evs = pre ++ [fl; EvRealloc p (Z.of_nat (length written)) q] /\
    (exists cd room produced n,
       fl = EvIconv cd None (Some room) produced (Converted n)) /\
    (written = [] -> p = Ptr b 0 /\ q = Null /\ heap w' = h0) /\
    (written <> [] ->
     exists bytes,
       heap w' = <[b := bytes]> h0 /\
       take (length written) bytes = written /\
       (if is_null q then p = Ptr b 0 /\ cap_shape (Z.of_nat (length bytes))
        else q = Ptr b 0 /\ length bytes = length written)).

(** The loop ended on a call that failed: [grow], or [iconv] with a signal
    other than [E2BIG]. *)
Definition loop_failure (iv : nat) (f : event) : Prop :=
  match f with
  | EvRealloc _ _ Null => True
  | EvIconv cd (Some _) (Some _) _ (Failed e) => cd = iv /\ e <> E2BIG
  | _ => False
  end.


(** The conversion loop starts with a call of [grow] and, when that
    succeeded, a call of [iconv] on the input [inp] with [room] bytes of
    output. *)
Definition loop_starts (iv : nat) (inp : list byte) (p : ptr) (n room : Z)
    (evs : list event) : Prop :=
  exists q tail,
    evs = EvRealloc p n q :: tail /\
    (is_null q = false ->
     exists produced rv tail',
       tail = EvIconv iv (Some inp) (Some room) produced rv :: tail').

(** ** Error classification, as the specification words it *)

Inductive error_kind : Type :=
| IncompleteSequence
| IllegalSequence
| OutOfMemory
| OtherSystemError (code : Z).

(** The kind of error that a failure signal stands for. *)
Definition spec_classify (signal : Z) : error_kind :=
  if decide (signal = EINVAL) then IncompleteSequence
  else if decide (signal = EILSEQ) then IllegalSequence
  else if decide (signal = ENOMEM) then OutOfMemory
  else OtherSystemError signal.

(** The message that the binding attaches to each kind of error. *)
Definition error_message (k : error_kind) : option string :=
  match k with
  | IncompleteSequence => Some "Incomplete character sequence."
  | IllegalSequence => Some "Illegal character sequence."
  | OutOfMemory => Some "Out of memory."
  | OtherSystemError _ => None
  end.

(** ** The fixup of encoding names, as the specification words it *)

(** A name in lower case. *)
Fixpoint lower (s : string) : string :=
  match s with
  | EmptyString => EmptyString
  | String c s => String (tolower c) (lower s)
  end.

(** The aliases that the fixup knows, each with its canonical name. *)
Definition utf_aliases : list (string * string) :=
  [("UTF16", "UTF-16"); ("UTF16LE", "UTF-16LE"); ("UTF16BE", "UTF-16BE");
   ("UTF32", "UTF-32"); ("UTF32LE", "UTF-32LE"); ("UTF32BE", "UTF-32BE");
   ("UTF7", "UTF-7"); ("UTF8", "UTF-8")].

Fixpoint lookup_alias (name : string) (table : list (string * string)) : string :=
  match table with
  | [] => name
  | (alias, canonical) :: table =>
    if decide (lower name = lower alias) then canonical
    else lookup_alias name table
  end.

(** A name that is an alias, letter case aside, becomes the canonical name;
    every other name is passed through. *)
Definition fix_spec (name : string) : string := lookup_alias name utf_aliases.

(** [fixEncodingName] with the [switch] spelled as comparisons. *)
Definition fix_alt (name : string) : string :=
  if (strncasecmp name "UTF" 3 =? 0) && negb (Ascii.eqb (char_at name 3) "-")
  then
    match str_from name 3 with
    | EmptyString => name
    | String c s =>
      if Ascii.eqb c "1" then
        if strcmp s "6" =? 0 then "UTF-16"
        else if strcasecmp s "6LE" =? 0 then "UTF-16LE"
        else if strcasecmp s "6BE" =? 0 then "UTF-16BE"
        else name
      else if Ascii.eqb c "3" then
        if strcmp s "2" =? 0 then "UTF-32"
        else if strcasecmp s "2LE" =? 0 then "UTF-32LE"
        else if strcasecmp s "2BE" =? 0 then "UTF-32BE"
        else name
      else if Ascii.eqb c "7" then
        match s with EmptyString => "UTF-7" | _ => name end
      else if Ascii.eqb c "8" then
        match s with EmptyString => "UTF-8" | _ => name end
      else name
    end
  else name.


(** ** Runs of the small library *)

Definition stateless : toy_state := ToyState false false.
Definition stateful : toy_state := ToyState true false.

(** The same with blocks that move as [mv] says. *)
Definition moving_world (answers mv : list bool) (st : toy_state)
  : world toy_state :=
  World ∅ answers 0 {[ 0%nat := st ]} [] false mv.


(** Fifteen characters into the stateful encoding: sixteen bytes of output,
    and no room left for the closing byte of the flush. *)
Definition ex_retry_world : world toy_state := toy_world [true; true; true] stateful.
Definition ex_retry_run : Z * ptr * Z * world toy_state :=
  convert toy x00 0 (bytes_of "0123456789abcde") ex_retry_world.



(** A conversion whose final [realloc] fails. *)
Definition ex_trim_world : world toy_state := toy_world [true; false] stateless.
Definition ex_trim_run : Z * ptr * Z * world toy_state :=
  convert toy x00 0 (bytes_of "hello") ex_trim_world.

(** An output of zero bytes: the empty input into the stateless encoding. *)
Definition ex_dangling_world : world toy_state := toy_world [true; true] stateless.
Definition ex_dangling_convert : Z * ptr * Z * world toy_state :=
  convert toy x00 0 [] ex_dangling_world.
Definition ex_dangling_run : value * world toy_state :=
  Iconv_Convert toy x00 0 [] ex_dangling_world.

(** Empty input: with memory, and without. *)
Definition ex_empty_world : world toy_state := toy_world [true; true] stateful.
Definition ex_empty_run : value * world toy_state :=
  Iconv_Convert toy x00 0 [] ex_empty_world.
Definition ex_empty_oom_run : value * world toy_state :=
  Iconv_Convert toy x00 0 [] (toy_world [] stateless).

(** A string argument. *)
Definition ex_string_world : world toy_state := toy_world [true; true] stateless.

(** * The rest of the binding *)

Section Lifecycle.

Variable L : iconv_library.

Local Abbreviation Mon := (M (cd_state L)).

Local Open Scope m_scope.

(** [FreeMemory(data, hint)] (iconv.cc, lines 126-129): the callback that
    V8 runs when it collects a buffer returned by [convert]. *)
Definition FreeMemory (data : ptr) : Mon unit := free L data.

(** [iconv_close(cd)]: the descriptor is gone; on a descriptor that is not
    open the call fails with [EBADF]. *)
Definition iconv_close (cd : nat) : Mon Z := fun w =>
  match cds w !! cd with
  | Some _ => (0, set_cds (delete cd (cds w)) w)
  | None => (-1, set_errno EBADF w)
  end.

(** [Iconv::~Iconv()] (iconv.cc, lines 37-39). *)
Definition Iconv_dtor (conv_ : nat) : Mon unit :=
  _ <- iconv_close conv_ ;;
  ret tt.

End Lifecycle.

(** ** Sizes of allocations *)

(** The sizes that the calls of [realloc] in a trace ask for. *)
Definition realloc_sizes (evs : list event) : list Z :=
  flat_map (fun e => match e with EvRealloc _ n _ => [n] | _ => [] end) evs.

(** 16, 32, 64, ...: [k] sizes from [16 * 2 ^ j] on. *)
Definition growth_sizes (j k : nat) : list Z :=
  (fun i => 16 * 2 ^ Z.of_nat i) <$> seq j k.

(** The capacity of the buffer after [j] growths. *)
Definition capacity_after (j : nat) : Z :=
  match j with
  | O => 0
  | S j => 16 * 2 ^ Z.of_nat j
  end.

(** ** Descriptors *)

(** From [w] to [w'] nothing happened to the descriptors other than [iv],
    and [iv] is still open if it was. *)
Definition descriptors_kept {S} (iv : nat) (w w' : world S) : Prop :=
  (forall j, j <> iv -> cds w' !! j = cds w !! j) /\
  (is_Some (cds w !! iv) -> is_Some (cds w' !! iv)).

(** ** The read cursor *)

(** The library reads no more than the input it is given:
    [*inbytesleft] never goes below zero. *)
Definition iconv_reads (L : iconv_library) : Prop :=
  forall st inp room,
    0 <= io_consumed (lib_iconv L st (Some inp) room) <= Z.of_nat (length inp).

(** The inputs that the calls of [iconv] with an input side were given. *)
Definition fed_inputs (evs : list event) : list (list byte) :=
  flat_map (fun e => match e with
                     | EvIconv _ (Some inp) (Some _) _ _ => [inp]
                     | _ => []
                     end) evs.

(** The calls of [iconv] with an input side in [evs], replayed on the
    library from the state [st] and the input [cur]: each call is given
    the input that is left, returns and writes what the library answers
    in the state that the call before left, and leaves to the next call
    the input without the bytes that the library says it consumed. *)
Fixpoint input_calls (L : iconv_library) (st : cd_state L) (cur : list byte)
    (evs : list event) : Prop :=
  match evs with
  | [] => True
  | EvIconv _ (Some inp) (Some room) produced rv :: evs =>
    let r := lib_iconv L st (Some cur) (Some room) in
    inp = cur /\ produced = io_produced r /\ rv = io_rv r /\
    input_calls L (io_state r) (drop (Z.to_nat (io_consumed r)) cur) evs
  | _ :: evs => input_calls L st cur evs
  end.

(** ** A library with a long closing sequence

    Its encoding ends with twenty bytes [0f], so that a flush can find the
    output too small twice in a row; it reads its input without writing
    anything. *)

Definition tail_iconv (st : unit) (inp : option (list byte)) (room : option Z)
  : iconv_out unit :=
  match inp, room with
  | Some inp, _ => IconvOut tt (Z.of_nat (length inp)) [] (Converted 0)
  | None, Some room =>
    if room <? 20 then IconvOut tt 0 [] (Failed E2BIG)
    else IconvOut tt 0 (replicate 20 x0f) (Converted 0)
  | None, None => IconvOut tt 0 [] (Converted 0)
  end.

Definition tail_library : iconv_library :=
  IconvLibrary unit (fun _ _ => inr tt) tail_iconv.

Definition tail_world (answers : list bool) : world unit :=
  World ∅ answers 0 {[ 0%nat := tt ]} [] false [].

(** ** A library with a short closing sequence

    Its encoding ends with the two bytes [0f 0f], whatever the input. *)

Definition trailer_iconv (st : unit) (inp : option (list byte)) (room : option Z)
  : iconv_out unit :=
  match inp, room with
  | Some inp, _ => IconvOut tt (Z.of_nat (length inp)) [] (Converted 0)
  | None, Some room =>
    if room <? 2 then IconvOut tt 0 [] (Failed E2BIG)
    else IconvOut tt 0 [x0f; x0f] (Converted 0)
  | None, None => IconvOut tt 0 [] (Converted 0)
  end.

Definition trailer_library : iconv_library :=
  IconvLibrary unit (fun _ _ => inr tt) trailer_iconv.

(** The empty input into that encoding. *)
Definition ex_trailer_world : world unit := tail_world [true; true].
Definition ex_trailer_run : value * world unit :=
  Iconv_Convert trailer_library x00 0 [] ex_trailer_world.

(** ** More runs of the small libraries *)

(** Five characters, and memory to spare; the shrink moves the block. *)
Definition ex_hello_world : world toy_state :=
  moving_world [true; true] [true; true] stateless.
Definition ex_hello_run : value * world toy_state :=
  Iconv_Convert toy x00 0 (bytes_of "hello") ex_hello_world.

(** A converter from ASCII to UTF-8, asked for under the name "utf8". *)
Definition ex_new_world : world toy_state := toy_world [] stateless.
Definition ex_new_run : value * world toy_state :=
  Iconv_New toy ascii_strings "ASCII" "utf8" ex_new_world.

(** Two open descriptors; the conversion uses number 0. *)
Definition ex_two_world : world toy_state :=
  World ∅ [true; true] 0 (<[ 1%nat := stateless ]> {[ 0%nat := stateful ]}) []
        false [].

(** Thirty-eight characters: the buffer grows three times. *)
Definition ex_long_world : world toy_state :=
  toy_world [true; true; true; true] stateful.
Definition ex_long_convert : Z * ptr * Z * world toy_state :=
  convert toy x00 0 (bytes_of "hello world, this is more than sixteen")
    ex_long_world.

(** The closing sequence of twenty bytes does not fit the sixteen bytes of
    the buffer, nor the sixteen bytes that one growth adds. *)
Definition ex_tail_world : world unit := tail_world [true; true].
Definition ex_tail_run : value * world unit :=
  Iconv_Convert tail_library x00 0 (bytes_of "hi") ex_tail_world.

(** The first allocation is refused. *)
Definition ex_refused_world : world toy_state := toy_world [false; true] stateful.
Definition ex_refused_run : value * world toy_state :=
  Iconv_Convert toy x00 0 (bytes_of "abc") ex_refused_world.

(** A conversion that ends in an illegal byte, after two growths. *)
Definition ex_cursor_world : world toy_state := toy_world [true; true; true] stateless.
Definition ex_cursor_input : list byte := bytes_of "0123456789abcdefgh" ++ [xff].
Definition ex_cursor_convert : Z * ptr * Z * world toy_state :=
  convert toy x00 0 ex_cursor_input ex_cursor_world.
(** ** Arithmetic of capacities *)

Lemma cap_shape_bounds c : cap_shape c -> 16 <= c <= PTRDIFF_MAX.
Proof.
  intros (k & -> & Hmax). split; [|done].
  assert (0 < 2 ^ Z.of_nat k) by (apply Z.pow_pos_nonneg; lia). lia.
Qed.

Lemma cap_shape_16 : cap_shape 16.
Proof. exists 0%nat. split; [reflexivity | unfold PTRDIFF_MAX; lia]. Qed.

Lemma cap_shape_double c :
  cap_shape c -> 2 * c <= PTRDIFF_MAX -> cap_shape (2 * c).
Proof.
  intros (k & -> & _) Hmax. exists (S k). split; [|done].
  rewrite Nat2Z.inj_succ, Z.pow_succ_r by lia. lia.
Qed.

Lemma size_t_small n : 0 <= n < SIZE_MOD -> size_t n = n.
Proof. intros. unfold size_t. by apply Z.mod_small. Qed.

Lemma PTRDIFF_MAX_lt : 2 * PTRDIFF_MAX < SIZE_MOD.
Proof. unfold PTRDIFF_MAX, SIZE_MOD. lia. Qed.

(** ** Blocks *)

Lemma resized_length junk old n :
  0 <= n -> Z.of_nat (length (resized junk old n)) = n.
Proof.
  intros. unfold resized. rewrite length_app, length_take, length_replicate. lia.
Qed.

Lemma resized_grow junk old n :
  Z.of_nat (length old) <= n ->
  resized junk old n = old ++ replicate (Z.to_nat n - length old)%nat junk.
Proof. intros. unfold resized. rewrite take_ge by lia. done. Qed.

Lemma resized_shrink junk old n :
  0 <= n <= Z.of_nat (length old) ->
  resized junk old n = take (Z.to_nat n) old.
Proof.
  intros. unfold resized.
  replace (Z.to_nat n - length old)%nat with 0%nat by lia.
  simpl. by rewrite app_nil_r.
Qed.

Lemma fresh_block_None (h : gmap nat (list byte)) : h !! fresh_block h = None.
Proof. unfold fresh_block. apply (not_elem_of_dom (D := gset nat)). apply is_fresh. Qed.

Section Properties.

Variable L : iconv_library.
Variable junk : byte.
Variable V : v8_strings.
Hypothesis HL : iconv_contract L.

Local Abbreviation W := (world (cd_state L)).

Ltac run_step H :=
  match type of H with
  | bind ?m ?k ?w = _ =>
    let x := fresh "x" in let w1 := fresh "w" in let E := fresh "E" in
    unfold bind at 1 in H; destruct (m w) as [x w1] eqn:E
  end.

Lemma realloc_null n (w : W) :
  realloc L junk Null n w =
  if match allocs w with a :: _ => a && (n <=? PTRDIFF_MAX) | [] => false end
  then let b := fresh_block (heap w) in
       (Ptr b 0, add_log (EvRealloc Null n (Ptr b 0))
                   (set_heap (<[b := resized junk [] n]> (heap w))
                      (set_moves (tail (moves w))
                         (set_allocs (tail (allocs w)) w))))
  else (Null, add_log (EvRealloc Null n Null)
                (set_errno ENOMEM (set_allocs (tail (allocs w)) w))).
Proof. reflexivity. Qed.

(** The block that takes over the block [b] is [b] or a block that was not
    live. *)
Lemma place_None mv b bytes (h0 : gmap nat (list byte)) :
  h0 !! b = None -> h0 !! place mv (<[b := bytes]> h0) (Ptr b 0) = None.
Proof.
  intros Hb. unfold place. destruct mv as [|[] mv]; try done.
  pose proof (fresh_block_None (<[b := bytes]> h0)) as Hfresh.
  apply lookup_insert_None in Hfresh. tauto.
Qed.

Lemma realloc_live b bytes h0 n (w : W) :
  h0 !! b = None -> heap w = <[b := bytes]> h0 -> n <> 0 ->
  realloc L junk (Ptr b 0) n w =
  if match allocs w with a :: _ => a && (n <=? PTRDIFF_MAX) | [] => false end
  then let b' := place (moves w) (heap w) (Ptr b 0) in
       (Ptr b' 0, add_log (EvRealloc (Ptr b 0) n (Ptr b' 0))
                   (set_heap (<[b' := resized junk bytes n]> h0)
                      (set_moves (tail (moves w))
                         (set_allocs (tail (allocs w)) w))))
  else (Null, add_log (EvRealloc (Ptr b 0) n Null)
                (set_errno ENOMEM (set_allocs (tail (allocs w)) w))).
Proof.
  intros Hb Hh Hn. unfold realloc. simpl. rewrite Hh, lookup_insert_eq. simpl.
  destruct (Z.eqb_spec n 0) as [|_]; [done|].
  rewrite delete_insert_eq, delete_id by done.
  reflexivity.
Qed.

(** [realloc(p, 0)] on a live block frees it. *)
Lemma realloc_zero b bytes h0 (w : W) :
  h0 !! b = None -> heap w = <[b := bytes]> h0 ->
  realloc L junk (Ptr b 0) 0 w =
  (Null, add_log (EvRealloc (Ptr b 0) 0 Null) (set_heap h0 w)).
Proof.
  intros Hb Hh. unfold realloc. simpl. rewrite Hh, lookup_insert_eq. simpl.
  by rewrite delete_insert_eq, delete_id.
Qed.

Lemma denied_inv (a : list bool) n rest :
  match a with x :: _ => x && (n <=? PTRDIFF_MAX) | [] => false end = false ->
  a = true :: rest -> PTRDIFF_MAX < n.
Proof. intros H ->. simpl in H. by apply Z.leb_gt. Qed.

Lemma granted_inv (a : list bool) n :
  match a with x :: _ => x && (n <=? PTRDIFF_MAX) | [] => false end = true ->
  n <= PTRDIFF_MAX /\ exists rest, a = true :: rest.
Proof.
  destruct a as [|[] rest]; simpl; try done.
  intros H%Z.leb_le. eauto.
Qed.

(** The capacity that [grow] asks for, whatever the buffer. *)
Lemma grow_newlen o (w w' : W) ok o' :
  grow L junk o w = ((ok, o'), w') -> ok <> 0 ->
  outlen o' = if outlen o =? 0 then 16 else size_t (outlen o * 2).
Proof.
  unfold grow. intros Hg Hok. run_step Hg.
  destruct (is_null x); by injection Hg as <- <- <-.
Qed.

(** [grow] on a conversion buffer. *)
Lemma grow_inv h0 (w w' : W) o o' acc ok :
  buf_inv h0 w o acc ->
  grow L junk o w = ((ok, o'), w') ->
  errno w' = (if ok =? 0 then ENOMEM else errno w) /\ cds w' = cds w /\
  allocs w' = tail (allocs w) /\
  log w' = log w ++ [EvRealloc (output o) (Z.max 16 (outlen o * 2))
                       (if ok =? 0 then Null else output o')] /\
  (ok = 0 /\ o' = o /\ buf_inv h0 w' o acc /\ heap w' = heap w /\
   (forall rest, allocs w = true :: rest ->
                 PTRDIFF_MAX < Z.max 16 (outlen o * 2)) \/
   ok = 1 /\ outlen o' = Z.max 16 (outlen o * 2) /\
   outbufsz o' = outlen o' - outlen o /\ 0 < outbufsz o' /\
   fault w' = false /\ buf_live h0 w' o' acc /\
   (exists rest, allocs w = true :: rest) /\
   exists old new, owned (heap w) (output o) = Some old /\
                   owned (heap w') (output o') = Some new /\
                   take (length old) new = old).
Proof.
  intros [Hf Hb] Hg. unfold grow in Hg.
  set (n := Z.max 16 (outlen o * 2)) in *.
  assert (Hnew : (if outlen o =? 0 then 16 else size_t (outlen o * 2)) = n
                 /\ size_t (n - outlen o) = n - outlen o /\ 0 < n - outlen o
                 /\ (n <= PTRDIFF_MAX -> cap_shape n)).
  { pose proof PTRDIFF_MAX_lt. subst n.
    destruct Hb as [(_ & _ & -> & _)|(b & bytes & _ & _ & _ & _ & _ & Hc & _)].
    - simpl. split; [done|]. split; [by apply size_t_small|].
      split; [lia|]. intros _. apply cap_shape_16.
    - pose proof (cap_shape_bounds _ Hc).
      destruct (Z.eqb_spec (outlen o) 0); [lia|].
      rewrite !size_t_small by lia. split; [lia|]. split; [lia|]. split; [lia|].
      intros Hmax. replace (Z.max 16 (outlen o * 2)) with (2 * outlen o) in * by lia.
      by apply cap_shape_double. }
  destruct Hnew as (Hnew & Hsz' & Hpos & Hshape). rewrite Hnew, Hsz' in Hg.
  run_step Hg.
  destruct Hb as [(Ho & Hob & Hlen & Hsz & Hh & Hacc)
                 |(b & bytes & Ho & Hob & Hb & Hh & Hlen & Hc & Hsz & Hoff & Htake)].
  - rewrite Ho, realloc_null in E.
    destruct (match allocs w with a :: _ => a && (n <=? PTRDIFF_MAX) | [] => false end) eqn:Hgr.
    + apply granted_inv in Hgr as [Hmax Hrest].
      simpl in E. injection E as <- <-. simpl in Hg. injection Hg as <- <- <-.
      simpl. rewrite Ho. repeat split; try done.
      right. repeat split; try done; try lia.
      { exists (fresh_block (heap w)), (resized junk [] n). simpl.
        rewrite Hob, Hacc, <- Hh. simpl.
        repeat split; try done; try lia; auto using fresh_block_None.
        apply resized_length. lia. }
      exists [], (resized junk [] n). simpl.
      by rewrite lookup_insert_eq.
    + injection E as <- <-. simpl in Hg. injection Hg as <- <- <-.
      simpl. rewrite Ho. repeat split; try done.
      left. split_and!; try done; [|intros; by eapply denied_inv].
      split; [done|]. left. by repeat split.
  - rewrite Ho, (realloc_live b bytes h0) in E by (try done; lia).
    destruct (match allocs w with a :: _ => a && (n <=? PTRDIFF_MAX) | [] => false end) eqn:Hgr.
    + apply granted_inv in Hgr as [Hmax Hrest].
      simpl in E. injection E as <- <-. simpl in Hg. injection Hg as <- <- <-.
      simpl. rewrite Ho. repeat split; try done.
      right. repeat split; try done; try lia.
      { exists (place (moves w) (heap w) (Ptr b 0)), (resized junk bytes n). simpl.
        rewrite Hob. unfold ptr_diff. simpl.
        repeat split; try done; try lia; auto;
          try (rewrite Hh; by apply place_None).
        * f_equal. lia.
        * apply resized_length. lia.
        * rewrite resized_grow by lia. rewrite take_app_le by lia. done. }
      exists bytes, (resized junk bytes n). simpl.
      rewrite Hh, !lookup_insert_eq.
      split_and!; try done.
      rewrite resized_grow by lia. by rewrite take_app_length.
    + injection E as <- <-. simpl in Hg. injection Hg as <- <- <-.
      simpl. rewrite Ho. repeat split; try done.
      left. split_and!; try done; [|intros; by eapply denied_inv].
      split; [done|]. right. exists b, bytes. by repeat split.
Qed.

(** ** Calls of [iconv] *)

Lemma set_heap_id (w : W) : set_heap (heap w) w = w.
Proof. by destruct w. Qed.

Lemma store_live b bytes h0 off bs (w : W) :
  heap w = <[b := bytes]> h0 ->
  0 <= off -> off + Z.of_nat (length bs) <= Z.of_nat (length bytes) ->
  store L (Ptr b off) bs w =
  (tt, set_heap (<[b := take (Z.to_nat off) bytes ++ bs
                        ++ drop (Z.to_nat off + length bs)%nat bytes]> h0) w).
Proof.
  intros Hh Hoff Hlen. unfold store. destruct bs as [|c bs].
  - simpl. rewrite Nat.add_0_r, take_drop, <- Hh. by rewrite set_heap_id.
  - rewrite Hh, lookup_insert_eq.
    destruct (Z.leb_spec 0 off); [|lia].
    destruct (Z.leb_spec (off + Z.of_nat (length (c :: bs))) (Z.of_nat (length bytes))); [|lia].
    simpl. by rewrite insert_insert_eq.
Qed.

Lemma iconv_inv h0 (w w' : W) iv inp o acc rv consumed n :
  buf_inv h0 w o acc ->
  iconv L iv inp (Some (outbuf o, outbufsz o)) w = ((rv, consumed, n), w') ->
  exists produced,
    n = Z.of_nat (length produced) /\
    buf_inv h0 w' (advance o n) (acc ++ produced) /\
    (buf_live h0 w o acc -> buf_live h0 w' (advance o n) (acc ++ produced)) /\
    log w' = log w ++ [EvIconv iv inp (Some (outbufsz o)) produced rv] /\
    errno w' = match rv with Failed e => e | Converted _ => errno w end /\
    allocs w' = allocs w.
Proof.
  intros [Hf Hb] Hi. unfold iconv in Hi.
  destruct (cds w !! iv) as [st|] eqn:Hcd.
  - simpl in Hi.
    set (r := lib_iconv L st inp (Some (outbufsz o))) in *.
    assert (Hfit : 0 <= outbufsz o ->
                   Z.of_nat (length (io_produced r)) <= outbufsz o)
      by (intros; by apply (iconv_fits L HL)).
    exists (io_produced r).
    destruct Hb as [(Ho & Hob & Hlen & Hsz & Hh & Hacc)
                   |(b & bytes & Ho & Hob & Hb & Hh & Hlen & Hc & Hsz & Hoff & Htake)].
    + assert (Hnil : io_produced r = []).
      { apply nil_length_inv. lia. }
      rewrite Hnil in *. rewrite Hob in Hi. simpl in Hi.
      injection Hi as <- <- <- <-. simpl.
      assert (Hinv : buf_null h0
        (add_log (EvIconv iv inp (Some (outbufsz o)) [] (io_rv r))
           match io_rv r with
           | Converted _ => set_cds (<[iv:=io_state r]> (cds w)) w
           | Failed e => set_errno e (set_cds (<[iv:=io_state r]> (cds w)) w)
           end) (advance o 0) (acc ++ [])).
      { unfold buf_null, advance. rewrite Ho, Hob, Hlen, Hsz, Hacc.
        destruct (io_rv r); simpl; by repeat split. }
      split; [done|]. split.
      { split; [|by left]. by destruct (io_rv r). }
      split; [intros (b' & bytes' & Ho' & _); congruence|].
      destruct (io_rv r); by repeat split.
    + specialize (Hfit Hsz).
      rewrite Hob in Hi. simpl in Hi.
      erewrite store_live in Hi; cycle 1.
      { destruct (io_rv r); simpl; exact Hh. }
      { lia. }
      { lia. }
      simpl in Hi. injection Hi as <- <- <- <-.
      assert (Hlive : buf_live h0
        (add_log (EvIconv iv inp (Some (outbufsz o)) (io_produced r) (io_rv r))
           (set_heap
              (<[b:=take (Z.to_nat (Z.of_nat (length acc))) bytes ++ io_produced r
                    ++ drop (Z.to_nat (Z.of_nat (length acc)) + length (io_produced r))%nat bytes]> h0)
              match io_rv r with
              | Converted _ => set_cds (<[iv:=io_state r]> (cds w)) w
              | Failed e => set_errno e (set_cds (<[iv:=io_state r]> (cds w)) w)
              end))
        (advance o (Z.of_nat (length (io_produced r)))) (acc ++ io_produced r)).
      { eexists b, _. unfold advance. rewrite Ho, Hob. simpl.
        rewrite Nat2Z.id, Htake, length_app.
        pose proof (cap_shape_bounds _ Hc). pose proof PTRDIFF_MAX_lt.
        rewrite size_t_small by lia.
        repeat split; try done; try lia.
        - f_equal. lia.
        - rewrite !length_app, length_drop. lia.
        - rewrite app_assoc. rewrite take_app_le by (rewrite length_app; lia).
          apply take_ge. rewrite length_app. lia. }
      split; [done|]. split.
      { split; [|by right]. simpl. by destruct (io_rv r). }
      split; [done|].
      simpl. destruct (io_rv r); by repeat split.
  - injection Hi as <- <- <- <-. exists []. simpl.
    assert (Hadv : advance o 0 = o).
    { destruct Hb as [(Ho & Hob & Hlen & Hsz & Hh & Hacc)
                     |(b & bytes & Ho & Hob & Hb & Hh & Hlen & Hc & Hsz & Hoff & Htake)];
      destruct o as [p1 l1 p2 l2]; unfold advance; simpl in *; subst.
      - done.
      - pose proof (cap_shape_bounds _ Hc). pose proof PTRDIFF_MAX_lt.
        rewrite size_t_small by lia. simpl. rewrite Z.add_0_r, Z.sub_0_r. done. }
    rewrite Hadv, app_nil_r.
    assert (forall acc', buf_live h0 w o acc' ->
              buf_live h0 (add_log (EvIconv iv inp (Some (outbufsz o)) [] (Failed EBADF))
                             (set_errno EBADF w)) o acc').
    { intros acc' (b & bytes & ?). exists b, bytes. done. }
    repeat split; try done; auto.
Qed.

Lemma produced_of_app evs1 evs2 :
  produced_of (evs1 ++ evs2) = produced_of evs1 ++ produced_of evs2.
Proof. unfold produced_of. by rewrite flat_map_app. Qed.

Lemma iconv_input_inv h0 (w w' : W) iv input i i' o o' acc rv :
  buf_inv h0 w o acc ->
  iconv_input L iv input i o w = ((rv, i', o'), w') ->
  exists inp produced,
    buf_inv h0 w' o' (acc ++ produced) /\
    (buf_live h0 w o acc -> buf_live h0 w' o' (acc ++ produced)) /\
    log w' = log w ++ [EvIconv iv (Some inp) (Some (outbufsz o)) produced rv] /\
    errno w' = match rv with Failed e => e | Converted _ => errno w end /\
    allocs w' = allocs w /\
    inp = take (Z.to_nat (inbufsz i)) (drop (Z.to_nat (inbuf i)) input) /\
    output o' = output o.
Proof.
  intros Hinv Hi. unfold iconv_input in Hi. run_step Hi.
  destruct x as [[rv1 consumed] n]. injection Hi as <- <- <- <-.
  destruct (iconv_inv _ _ _ _ _ _ _ _ _ _ Hinv E) as (produced & -> & ? & ? & ? & ? & ?).
  eexists _, produced. by split_and!.
Qed.

Lemma iconv_flush_inv h0 (w w' : W) iv o o' acc rv :
  buf_inv h0 w o acc ->
  iconv_flush L iv o w = ((rv, o'), w') ->
  exists produced,
    buf_inv h0 w' o' (acc ++ produced) /\
    (buf_live h0 w o acc -> buf_live h0 w' o' (acc ++ produced)) /\
    log w' = log w ++ [EvIconv iv None (Some (outbufsz o)) produced rv] /\
    errno w' = match rv with Failed e => e | Converted _ => errno w end /\
    allocs w' = allocs w /\ output o' = output o.
Proof.
  intros Hinv Hi. unfold iconv_flush in Hi. run_step Hi.
  destruct x as [[rv1 consumed] n]. injection Hi as <- <- <-.
  destruct (iconv_inv _ _ _ _ _ _ _ _ _ _ Hinv E) as (produced & -> & ? & ? & ? & ? & ?).
  exists produced. by split_and!.
Qed.

(** What a call computes on an open descriptor. *)
Lemma store_frame p bs (w : W) :
  cds (snd (store L p bs w)) = cds w /\ log (snd (store L p bs w)) = log w /\
  allocs (snd (store L p bs w)) = allocs w.
Proof.
  unfold store. destruct bs as [|c bs]; [done|].
  destruct p as [|b off]; [done|].
  destruct (heap w !! b); [|done].
  by destruct (_ && _).
Qed.

Lemma iconv_exec st (w w' : W) iv inp out rv consumed n :
  cds w !! iv = Some st ->
  iconv L iv inp out w = ((rv, consumed, n), w') ->
  rv = io_rv (lib_iconv L st inp (snd <$> out)) /\
  cds w' !! iv = Some (io_state (lib_iconv L st inp (snd <$> out))) /\
  log w' = log w ++ [EvIconv iv inp (snd <$> out)
                       (io_produced (lib_iconv L st inp (snd <$> out))) rv].
Proof.
  intros Hcd Hi. unfold iconv in Hi. rewrite Hcd in Hi.
  set (r := lib_iconv L st inp (snd <$> out)) in *.
  injection Hi as <- <- <- <-. simpl.
  match goal with |- context [store L ?p ?bs ?w0] =>
    destruct (store_frame p bs w0) as (-> & -> & _) end.
  destruct (io_rv r); simpl; by rewrite lookup_insert_eq.
Qed.

Lemma iconv_reset_exec st (w w' : W) iv rv :
  cds w !! iv = Some st ->
  iconv_reset L iv w = (rv, w') ->
  cds w' !! iv = Some (io_state (lib_iconv L st None None)).
Proof.
  intros Hcd Hr. unfold iconv_reset in Hr. run_step Hr.
  destruct x as [[rv1 consumed] n]. injection Hr as <- <-.
  by destruct (iconv_exec _ _ _ _ _ _ _ _ _ Hcd E) as (_ & ? & _).
Qed.

Lemma iconv_input_exec st (w w' : W) iv input i i' o o' rv :
  cds w !! iv = Some st ->
  iconv_input L iv input i o w = ((rv, i', o'), w') ->
  let inp := take (Z.to_nat (inbufsz i)) (drop (Z.to_nat (inbuf i)) input) in
  let r := lib_iconv L st (Some inp) (Some (outbufsz o)) in
  rv = io_rv r /\ cds w' !! iv = Some (io_state r) /\
  log w' = log w ++ [EvIconv iv (Some inp) (Some (outbufsz o)) (io_produced r) rv].
Proof.
  intros Hcd Hi. unfold iconv_input in Hi. run_step Hi.
  destruct x as [[rv1 consumed] n]. injection Hi as <- <- <- <-.
  exact (iconv_exec _ _ _ _ _ _ _ _ _ Hcd E).
Qed.

Lemma iconv_flush_exec st (w w' : W) iv o o' rv :
  cds w !! iv = Some st ->
  iconv_flush L iv o w = ((rv, o'), w') ->
  let r := lib_iconv L st None (Some (outbufsz o)) in
  rv = io_rv r /\ cds w' !! iv = Some (io_state r) /\
  log w' = log w ++ [EvIconv iv None (Some (outbufsz o)) (io_produced r) rv].
Proof.
  intros Hcd Hi. unfold iconv_flush in Hi. run_step Hi.
  destruct x as [[rv1 consumed] n]. injection Hi as <- <- <-.
  exact (iconv_exec _ _ _ _ _ _ _ _ _ Hcd E).
Qed.

(** ** The fuel of the conversion loop *)

Lemma realloc_allocs p n (w w' : W) q :
  realloc L junk p n w = (q, w') -> is_null q = false ->
  S (length (allocs w')) = length (allocs w).
Proof.
  unfold realloc. destruct (owned (heap w) p); [|by intros [= <- <-]].
  destruct (negb (is_null p) && (n =? 0)); [by intros [= <- <-]|].
  destruct (allocs w) as [|[] rest] eqn:Ha; simpl;
    try destruct (n <=? PTRDIFF_MAX); by intros [= <- <-].
Qed.

Lemma grow_allocs o (w w' : W) ok o' :
  grow L junk o w = ((ok, o'), w') -> ok <> 0 ->
  S (length (allocs w')) = length (allocs w).
Proof.
  unfold grow. intros Hg Hok. run_step Hg.
  destruct (is_null x) eqn:Hx; injection Hg as <- <- <-; [done|].
  by eapply realloc_allocs.
Qed.

Lemma iconv_input_allocs iv input i o (w : W) :
  allocs (snd (iconv_input L iv input i o w)) = allocs w.
Proof.
  unfold iconv_input, bind, iconv.
  destruct (cds w !! iv); simpl; [|done].
  match goal with |- context [store L ?p ?bs ?w0] =>
    destruct (store_frame p bs w0) as (_ & _ & ->) end.
  by destruct (io_rv _).
Qed.

(** With more fuel than the oracle has answers, the result of the loop
    does not depend on the fuel: the case of no fuel is never reached. *)
Lemma convert_loop_fuel f1 : forall f2 iv input i o (w : W),
  (length (allocs w) < f1)%nat -> (length (allocs w) < f2)%nat ->
  convert_loop L junk f1 iv input i o w = convert_loop L junk f2 iv input i o w.
Proof.
  induction f1 as [|f1 IH]; intros [|f2] iv input i o w H1 H2; try lia.
  simpl. unfold bind, get_errno.
  destruct (grow L junk o w) as [[ok o1] w1] eqn:Eg.
  destruct (Z.eqb_spec ok 0) as [->|Hok]; [done|].
  pose proof (grow_allocs _ _ _ _ _ Eg Hok) as Hlen.
  pose proof (iconv_input_allocs iv input i o1 w1) as Hal.
  destruct (iconv_input L iv input i o1 w1) as [[[rv i2] o2] w2].
  simpl in Hal.
  destruct (is_failed rv && (errno w2 =? E2BIG)); [|done].
  apply IH; rewrite Hal; lia.
Qed.

(** ** The conversion loop *)

Lemma convert_loop_inv fuel : forall h0 (w w' : W) iv input i i' o o' acc r,
  buf_inv h0 w o acc -> (length (allocs w) < fuel)%nat ->
  convert_loop L junk fuel iv input i o w = ((r, i', o'), w') ->
  exists evs,
    log w' = log w ++ evs /\ Forall (loop_event iv) evs /\
    loop_starts iv (take (Z.to_nat (inbufsz i)) (drop (Z.to_nat (inbuf i)) input))
      (output o) (Z.max 16 (outlen o * 2)) (Z.max 16 (outlen o * 2) - outlen o) evs /\
    buf_inv h0 w' o' (acc ++ produced_of evs) /\
    match r with
    | None =>
      errno w' = ENOMEM /\ exists pre p n, evs = pre ++ [EvRealloc p n Null]
    | Some rv =>
      buf_live h0 w' o' (acc ++ produced_of evs) /\
      (exists pre inp room produced,
         evs = pre ++ [EvIconv iv (Some inp) (Some room) produced rv]) /\
      match rv with
      | Failed e => errno w' = e /\ e <> E2BIG
      | Converted _ => True
      end
    end.
Proof.
  induction fuel as [|fuel IH]; intros h0 w w' iv input i i' o o' acc r Hinv Hfuel Hrun.
  { lia. }
  simpl in Hrun. run_step Hrun. destruct x as [ok o1].
  destruct (grow_inv _ _ _ _ _ _ _ Hinv E)
    as (Herr & Hcds & Hallocs & Hlog &
        [(-> & -> & Hinv1 & _)|(-> & Hlen & Hsz & Hpos & Hf1 & Hlive1 & (rest & Hrest) & _)]).
  - simpl in Hrun. injection Hrun as <- <- <- <-.
    eexists [_]. split; [exact Hlog|]. split; [by repeat constructor|].
    split. { eexists _, _. split; [done|]. simpl. done. }
    simpl. rewrite app_nil_r. split; [done|]. split; [done|].
    by eexists [], _, _.
  - simpl in Hrun. run_step Hrun. destruct x as [[rv i2] o2].
    assert (Hinv1 : buf_inv h0 w0 o1 acc) by (split; [done|by right]).
    destruct (iconv_input_inv _ _ _ _ _ _ _ _ _ _ _ Hinv1 E0)
      as (inp & produced & Hinv2 & Hlive2 & Hlog2 & Herr2 & Hallocs2 & Hinp & _).
    specialize (Hlive2 Hlive1).
    assert (Hstart : forall evs,
      loop_starts iv (take (Z.to_nat (inbufsz i)) (drop (Z.to_nat (inbuf i)) input))
        (output o) (Z.max 16 (outlen o * 2)) (Z.max 16 (outlen o * 2) - outlen o)
        (EvRealloc (output o) (16 `max` (outlen o * 2)) (output o1)
           :: EvIconv iv (Some inp) (Some (outbufsz o1)) produced rv :: evs)).
    { intros evs. eexists _, _. split; [done|]. intros _.
      rewrite Hsz, Hlen, Hinp. by eexists _, _, _. }
    unfold bind, get_errno in Hrun.
    destruct (is_failed rv && (errno w1 =? E2BIG)) eqn:Hagain.
    + apply IH with (h0 := h0) (acc := acc ++ produced) in Hrun; [|done|].
      2:{ rewrite Hallocs2, Hallocs, Hrest in *. simpl in *. lia. }
      destruct Hrun as (evs & Hlog3 & Hevs & _ & Hinv3 & Hr).
      exists (EvRealloc (output o) (16 `max` (outlen o * 2)) (output o1)
              :: EvIconv iv (Some inp) (Some (outbufsz o1)) produced rv :: evs).
      split. { rewrite Hlog3, Hlog2, Hlog. simpl. by rewrite <- !app_assoc. }
      split. { by repeat constructor. }
      split; [done|].
      simpl. rewrite <- app_assoc in *. split; [done|].
      destruct r as [rv'|].
      * destruct Hr as (? & (pre & inp' & room' & produced' & ->) & ?).
        split; [done|]. split; [|done].
        by eexists (_ :: _ :: pre), _, _, _.
      * destruct Hr as (? & (pre & p & n & ->)).
        split; [done|]. by eexists (_ :: _ :: pre), _, _.
    + injection Hrun as <- <- <- <-.
      exists [EvRealloc (output o) (16 `max` (outlen o * 2)) (output o1);
              EvIconv iv (Some inp) (Some (outbufsz o1)) produced rv].
      split. { rewrite Hlog2, Hlog. simpl. by rewrite <- !app_assoc. }
      split. { by repeat constructor. }
      split; [done|].
      simpl. rewrite app_nil_r. split; [done|]. split; [done|].
      split. { by eexists [_], _, _, _. }
      destruct rv as [n|e]; [done|]. simpl in Hagain.
      split; [done|]. rewrite Herr2 in Hagain. by apply Z.eqb_neq.
Qed.

(** ** The end of [convert] *)

Lemma convert_error_inv h0 (w w' : W) o acc r :
  buf_inv h0 w o acc ->
  convert_error L o w = (r, w') ->
  r = (0, Null, 0) /\ heap w' = h0 /\ fault w' = false /\
  log w' = log w ++ [EvFree (output o)] /\ errno w' = errno w.
Proof.
  intros [Hf Hb] He. unfold convert_error in He. run_step He.
  injection He as <- <-. unfold free in E.
  destruct Hb as [(Ho & Hob & Hlen & Hsz & Hh & Hacc)
                 |(b & bytes & Ho & Hob & Hb & Hh & Hlen & Hc & Hsz & Hoff & Htake)].
  - rewrite Ho in *. simpl in E. injection E as <- <-. by simpl.
  - rewrite Ho in *. simpl in E. rewrite Hh, lookup_insert_eq in E.
    injection E as <- <-. simpl.
    by rewrite delete_insert_eq, delete_id.
Qed.

Lemma convert_finish_inv h0 (w w' : W) o acc r :
  fault w = false -> buf_live h0 w o acc ->
  convert_finish L junk o w = (r, w') ->
  fault w' = false /\
  exists b q,
    r = (1, Ptr b 0, Z.of_nat (length acc)) /\
    h0 !! b = None /\
    log w' = log w ++ [EvRealloc (output o) (Z.of_nat (length acc)) q] /\
    (acc = [] -> output o = Ptr b 0 /\ q = Null /\ heap w' = h0) /\
    (acc <> [] ->
     exists bytes,
       heap w' = <[b := bytes]> h0 /\
       take (length acc) bytes = acc /\
       (if is_null q then output o = Ptr b 0 /\ cap_shape (Z.of_nat (length bytes))
        else q = Ptr b 0 /\ length bytes = length acc)).
Proof.
  intros Hf (b & bytes & Ho & Hob & Hb & Hh & Hlen & Hc & Hsz & Hoff & Htake) Hfin.
  unfold convert_finish in Hfin. run_step Hfin. injection Hfin as <- <-.
  rewrite Ho, Hob in *. unfold ptr_diff in *. simpl in *.
  pose proof (cap_shape_bounds _ Hc). pose proof PTRDIFF_MAX_lt.
  rewrite Z.sub_0_r, size_t_small in * by lia.
  destruct (decide (acc = [])) as [->|Hacc].
  - (* nothing written: [realloc(p, 0)] *)
    change (Z.of_nat (length (@nil byte))) with 0 in *.
    rewrite (realloc_zero b bytes h0) in E by done.
    injection E as <- <-. simpl. split; [done|].
    exists b, Null. by split_and!.
  - assert (Hpos : length acc <> 0%nat) by (by destruct acc).
    rewrite (realloc_live b bytes h0) in E by (try done; lia).
    destruct (match allocs w with a :: _ => a && (_ <=? PTRDIFF_MAX) | [] => false end).
    + injection E as <- <-. split; [done|].
      exists (place (moves w) (heap w) (Ptr b 0)),
             (Ptr (place (moves w) (heap w) (Ptr b 0)) 0).
      split_and!; try done.
      { rewrite Hh. by apply place_None. }
      intros _. exists (resized junk bytes (Z.of_nat (length acc))).
      rewrite resized_shrink by lia. rewrite Nat2Z.id.
      split_and!; try done.
      * rewrite take_take, Nat.min_id. done.
      * simpl. split; [done|]. rewrite length_take. lia.
    + injection E as <- <-. split; [done|].
      exists b, Null. split_and!; try done.
      intros _. exists bytes. simpl. rewrite Hlen. by split_and!.
Qed.

Lemma failed_with_app h0 (w' : W) r evs0 evs :
  failed_with h0 w' r evs -> failed_with h0 w' r (evs0 ++ evs).
Proof.
  intros (-> & Hh & pre & f & p & -> & Hsig). split_and!; try done.
  exists (evs0 ++ pre), f, p. by rewrite app_assoc.
Qed.

Lemma succeeded_with_app h0 (w' : W) r evs0 evs written :
  succeeded_with h0 w' r evs written ->
  succeeded_with h0 w' r (evs0 ++ evs) written.
Proof.
  intros (b & pre & fl & p & q & -> & ? & -> & ? & ? & ?).
  exists b, (evs0 ++ pre), fl, p, q. rewrite app_assoc. by split_and!.
Qed.

Lemma convert_shift_inv h0 (w w' : W) iv o acc r :
  fault w = false -> buf_live h0 w o acc ->
  convert_shift L junk iv o w = (r, w') ->
  exists post,
    log w' = log w ++ post /\ fault w' = false /\
    shift_trace iv post (fst (fst r)) /\
    (failed_with h0 w' r post \/
     succeeded_with h0 w' r post (acc ++ produced_of post)).
Proof.
  intros Hf Hlive Hrun. unfold convert_shift in Hrun.
  assert (Hinv : buf_inv h0 w o acc) by (split; [done|by right]).
  run_step Hrun. destruct x as [rv o1].
  destruct (iconv_flush_inv _ _ _ _ _ _ _ _ Hinv E)
    as (produced & Hinv1 & Hlive1 & Hlog1 & Herr1 & Hallocs1 & Hout1).
  specialize (Hlive1 Hlive). destruct rv as [n|e]; simpl in Hrun.
  - (* the flush succeeded *)
    destruct (convert_finish_inv _ _ _ _ _ _ (proj1 Hinv1) Hlive1 Hrun)
      as (Hf' & b & q & -> & Hb & Hlog & Hnone & Hsome).
    eexists [_; _]. split. { rewrite Hlog, Hlog1, <- app_assoc. done. }
    split; [done|]. split; [constructor|]. right.
    simpl. rewrite app_nil_r.
    eexists b, [], _, _, q. split_and!; try done; eauto.
  - unfold bind, get_errno in Hrun. rewrite Herr1 in Hrun.
    destruct (Z.eqb_spec e E2BIG) as [->|Hne]; simpl in Hrun.
    + (* output too small: grow and retry *)
      destruct (grow L junk o1 w0) as [[ok o2] w2] eqn:Eg.
      destruct (grow_inv _ _ _ _ _ _ _ Hinv1 Eg)
        as (Herr2 & Hcds2 & Hallocs2 & Hlog2 &
            [(-> & -> & Hinv2 & _)|(-> & Hlen & Hsz & Hpos & Hf2 & Hlive2 & _ & _)]).
      * simpl in Hrun.
        destruct (convert_error_inv _ _ _ _ _ _ Hinv2 Hrun)
          as (-> & Hh & Hf' & Hlog & Herr).
        eexists [_; _; _]. split. { rewrite Hlog, Hlog2, Hlog1, <- !app_assoc. done. }
        split; [done|]. split; [constructor|]. left.
        split_and!; try done. eexists [_], _, _. split; [done|].
        simpl. by rewrite Herr, Herr2.
      * simpl in Hrun.
        assert (Hinv2 : buf_inv h0 w2 o2 (acc ++ produced)) by (split; [done|by right]).
        destruct (iconv_flush L iv o2 w2) as [[rv3 o3] w3] eqn:Ef.
        destruct (iconv_flush_inv _ _ _ _ _ _ _ _ Hinv2 Ef)
          as (produced3 & Hinv3 & Hlive3 & Hlog3 & Herr3 & Hallocs3 & Hout3).
        specialize (Hlive3 Hlive2).
        assert (Hptr : exists b, output o2 = Ptr b 0).
        { destruct Hlive2 as (b & ? & ? & _). eauto. }
        destruct Hptr as [b2 Hptr].
        destruct rv3 as [n3|e3]; simpl in Hrun.
        -- destruct (convert_finish_inv _ _ _ _ _ _ (proj1 Hinv3) Hlive3 Hrun)
             as (Hf' & b & q & -> & Hb & Hlog & Hnone & Hsome).
           eexists [_; _; _; _].
           split. { rewrite Hlog, Hlog3, Hlog2, Hlog1, <- !app_assoc. done. }
           split; [done|]. rewrite Hout3, Hptr. split; [constructor|]. right.
           simpl. rewrite app_nil_r, app_assoc.
           eexists b, [_; _], _, _, q. rewrite <- Hptr, <- Hout3.
           split_and!; try done; eauto.
        -- destruct (convert_error_inv _ _ _ _ _ _ Hinv3 Hrun)
             as (-> & Hh & Hf' & Hlog & Herr).
           eexists [_; _; _; _].
           split. { rewrite Hlog, Hlog3, Hlog2, Hlog1, <- !app_assoc. done. }
           split; [done|]. rewrite Hout3, Hptr. split; [constructor|]. left.
           split_and!; try done. eexists [_; _], _, _. split; [done|].
           simpl. by rewrite Herr, Herr3.
    + destruct (convert_error_inv _ _ _ _ _ _ Hinv1 Hrun)
        as (-> & Hh & Hf' & Hlog & Herr).
      eexists [_; _]. split. { rewrite Hlog, Hlog1, <- !app_assoc. done. }
      split; [done|]. split; [by constructor|]. left.
      split_and!; try done. eexists [], _, _. split; [done|].
      simpl. by rewrite Herr, Herr1.
Qed.

(** ** [convert] as a whole *)

Lemma iconv_reset_inv (w w' : W) iv rv :
  fault w = false ->
  iconv_reset L iv w = (rv, w') ->
  log w' = log w ++ [EvIconv iv None None [] rv] /\
  heap w' = heap w /\ fault w' = false /\ allocs w' = allocs w.
Proof.
  intros Hf Hr. unfold iconv_reset, bind, iconv in Hr.
  destruct (cds w !! iv) as [st|].
  - simpl in Hr. rewrite (iconv_no_output L HL) in Hr. simpl in Hr.
    injection Hr as <- <-. simpl.
    by destruct (io_rv (lib_iconv L st None None)).
  - by injection Hr as <- <-.
Qed.

Lemma convert_inv (w w' : W) iv input r :
  fault w = false ->
  convert L junk iv input w = (r, w') ->
  exists rv0 loop post,
    log w' = log w ++ EvIconv iv None None [] rv0 :: loop ++ post /\
    Forall (loop_event iv) loop /\ loop_starts iv input Null 16 16 loop /\
    fault w' = false /\
    ((exists pre f p, loop = pre ++ [f] /\ loop_failure iv f /\
                      post = [EvFree p] /\ r = (0, Null, 0)) \/
     (exists pre inp room produced n,
        loop = pre ++ [EvIconv iv (Some inp) (Some room) produced (Converted n)]) /\
     shift_trace iv post (fst (fst r))) /\
    (failed_with (heap w) w' r (loop ++ post) \/
     succeeded_with (heap w) w' r (loop ++ post) (produced_of (loop ++ post))).
Proof.
  intros Hf Hrun. unfold convert in Hrun.
  run_step Hrun. rename x into rv0.
  destruct (iconv_reset_inv _ _ _ _ Hf E) as (Hlog0 & Hh0 & Hf0 & Hallocs0).
  run_step Hrun. destruct x as [[rv i1] o1].
  assert (Hinv0 : buf_inv (heap w) w0
            {| output := Null; outlen := 0; outbuf := Null; outbufsz := 0 |} []).
  { split; [done|]. left. by split_and!. }
  destruct (convert_loop_inv _ _ _ _ _ _ _ _ _ _ _ _ Hinv0 (Nat.lt_succ_diag_r _) E0)
    as (loop & Hlog1 & Hloop & Hstart & Hinv1 & Hr). simpl in Hinv1, Hr, Hstart.
  rewrite Nat2Z.id, drop_0, firstn_all in Hstart.
  exists rv0, loop.
  destruct rv as [[n|e]|].
  - (* the input has been consumed *)
    destruct Hr as (Hlive & Hlast & _). simpl in Hrun.
    destruct (convert_shift_inv _ _ _ _ _ _ _ (proj1 Hinv1) Hlive Hrun)
      as (post & Hlog2 & Hf2 & Htrace & Hres).
    exists post. split. { rewrite Hlog2, Hlog1, Hlog0, <- !app_assoc. done. }
    split; [done|]. split; [done|]. split; [done|]. split.
    { right. split; [|done].
      destruct Hlast as (pre & inp & room & produced & ->). by eexists pre, _, _, _, _. }
    destruct Hres as [Hres|Hres].
    + left. by apply failed_with_app.
    + right. rewrite produced_of_app. by apply succeeded_with_app.
  - (* [iconv] failed *)
    destruct Hr as (Hlive & (pre & inp & room & produced & ->) & Herr & Hne).
    simpl in Hrun.
    destruct (convert_error_inv _ _ _ _ _ _ Hinv1 Hrun) as (-> & Hh & Hf2 & Hlog2 & Herr2).
    eexists [_]. split. { rewrite Hlog2, Hlog1, Hlog0, <- !app_assoc. done. }
    split; [done|]. split; [done|]. split; [done|]. split.
    { left. eexists pre, _, _. by split_and!. }
    left. split_and!; try done. eexists pre, _, _. rewrite <- app_assoc.
    split; [done|]. simpl. by rewrite Herr2, Herr.
  - (* [grow] failed *)
    destruct Hr as (Herr & (pre & p & n & ->)).
    destruct (convert_error_inv _ _ _ _ _ _ Hinv1 Hrun) as (-> & Hh & Hf2 & Hlog2 & Herr2).
    eexists [_]. split. { rewrite Hlog2, Hlog1, Hlog0, <- !app_assoc. done. }
    split; [done|]. split; [done|]. split; [done|]. split.
    { left. eexists pre, _, _. by split_and!. }
    left. split_and!; try done. eexists pre, _, _. rewrite <- app_assoc.
    split; [done|]. simpl. by rewrite Herr2, Herr.
Qed.

(** ** [Iconv::Convert] *)

Lemma Iconv_Convert_inv (w w' : W) self input v :
  Iconv_Convert L junk self input w = (v, w') ->
  exists ret out len w1,
    convert L junk self input w = ((ret, out, len), w1) /\
    (ret <> 0 /\ v = Buffer_New out len /\ w' = w1 \/
     ret = 0 /\
     v = ThrowException
           (ErrnoException (errno w1) "iconv"
              (error_message (spec_classify (errno w1)))) /\
     heap w' = heap w1 /\ fault w' = fault w1 /\ errno w' = errno w1 /\
     exists tail, log w' = log w1 ++ tail /\
                  (tail = [] \/ tail = [EvLowMemoryNotification])).
Proof.
  intros Hrun. unfold Iconv_Convert in Hrun. run_step Hrun.
  destruct x as [[ret out] len]. exists ret, out, len, w0. split; [done|].
  destruct (Z.eqb_spec ret 0) as [->|Hne]; simpl in Hrun.
  - right. split; [done|]. unfold bind, get_errno in Hrun. unfold spec_classify.
    destruct (Z.eqb_spec (errno w0) EINVAL) as [He|He].
    { injection Hrun as <- <-. rewrite He. split_and!; try done.
      exists []. rewrite app_nil_r. auto. }
    rewrite decide_False by done.
    destruct (Z.eqb_spec (errno w0) EILSEQ) as [He'|He'].
    { injection Hrun as <- <-. rewrite He'. split_and!; try done.
      exists []. rewrite app_nil_r. auto. }
    rewrite decide_False by done.
    destruct (Z.eqb_spec (errno w0) ENOMEM) as [He''|He''].
    { unfold LowMemoryNotification, modify in Hrun. injection Hrun as <- <-.
      rewrite He''. split_and!; try done. eexists [_]. auto. }
    rewrite decide_False by done.
    injection Hrun as <- <-. split_and!; try done. exists []. rewrite app_nil_r. auto.
  - left. by injection Hrun as <- <-.
Qed.

(** One round of the loop: when the first allocation succeeds, [iconv]
    reports no failure on the input and the flush reports none, [convert]
    makes five calls, and what the binding returns is settled by what the
    two calls of [iconv] wrote. *)
Lemma convert_one_round (w w' : W) iv input st rest v :
  fault w = false ->
  cds w !! iv = Some st ->
  allocs w = true :: rest ->
  let st0 := io_state (lib_iconv L st None None) in
  let r1 := lib_iconv L st0 (Some input) (Some 16) in
  let r2 := lib_iconv L (io_state r1) None
              (Some (16 - Z.of_nat (length (io_produced r1)))) in
  let written := io_produced r1 ++ io_produced r2 in
  is_failed (io_rv r1) = false ->
  is_failed (io_rv r2) = false ->
  Iconv_Convert L junk iv input w = (v, w') ->
  exists b rv0 q1 q,
    v = Buffer_New (Ptr b 0) (Z.of_nat (length written)) /\
    heap w !! b = None /\
    log w' = log w ++
      [EvIconv iv None None [] rv0;
       EvRealloc Null 16 q1;
       EvIconv iv (Some input) (Some 16) (io_produced r1) (io_rv r1);
       EvIconv iv None (Some (16 - Z.of_nat (length (io_produced r1))))
         (io_produced r2) (io_rv r2);
       EvRealloc q1 (Z.of_nat (length written)) q] /\
    (written = [] -> q1 = Ptr b 0 /\ q = Null /\ heap w' = heap w) /\
    (written <> [] ->
     exists bytes,
       heap w' = <[b := bytes]> (heap w) /\
       take (length written) bytes = written /\
       (if is_null q then q1 = Ptr b 0 else q = Ptr b 0 /\ length bytes = length written)).
Proof.
  intros Hf Hcd Hallocs st0 r1 r2 written Hr1 Hr2 Hrun.
  destruct (Iconv_Convert_inv _ _ _ _ _ Hrun)
    as (ret & out & len & w1 & Hconv & Hv).
  unfold convert in Hconv. run_step Hconv. rename x into rv0.
  destruct (iconv_reset_inv _ _ _ _ Hf E) as (Hlog0 & Hh0 & Hf0 & Hallocs0).
  pose proof (iconv_reset_exec _ _ _ _ _ Hcd E) as Hcd0. fold st0 in Hcd0.
  assert (Hinv0 : buf_inv (heap w) w0
            {| output := Null; outlen := 0; outbuf := Null; outbufsz := 0 |} []).
  { split; [done|]. left. by split_and!. }
  unfold bind at 1 in Hconv.
  destruct (convert_loop L junk (S (length (allocs w0))) iv input
              {| inbuf := 0; inbufsz := Z.of_nat (length input) |}
              {| output := Null; outlen := 0; outbuf := Null; outbufsz := 0 |} w0)
    as [[[rvl il] ol] wl] eqn:Eloop.
  simpl in Eloop.
  run_step Eloop. destruct x as [ok o1].
  destruct (grow_inv _ _ _ _ _ _ _ Hinv0 E0)
    as (Herr1 & Hcds1 & Hallocs1 & Hlog1 &
        [(-> & -> & _ & _ & Hbig)|(-> & Hlen1 & Hsz1 & _ & Hf1 & Hlive1 & _ & _)]).
  { exfalso. rewrite Hallocs0, Hallocs in Hbig. specialize (Hbig _ eq_refl).
    simpl in Hbig. unfold PTRDIFF_MAX in Hbig. lia. }
  simpl in Hlen1, Hsz1, Hlog1, Eloop. rewrite Hlen1 in Hsz1.
  change (16 `max` (0 * 2)) with 16 in *. change (16 - 0) with 16 in Hsz1.
  assert (Hinv1 : buf_inv (heap w) w2 o1 []) by (split; [done|by right]).
  run_step Eloop. destruct x as [[rv i2] o2].
  rewrite <- Hcds1 in Hcd0.
  destruct (iconv_input_exec _ _ _ _ _ _ _ _ _ _ Hcd0 E1) as (Hrv & Hcd2 & Hlog2).
  simpl in Hrv, Hcd2, Hlog2.
  rewrite ?Nat2Z.id, ?firstn_all, Hsz1 in Hrv, Hcd2, Hlog2.
  change (drop (Z.to_nat 0) input) with input in Hrv, Hcd2, Hlog2.
  fold r1 in Hrv, Hcd2, Hlog2.
  destruct (iconv_input_inv _ _ _ _ _ _ _ _ _ _ _ Hinv1 E1)
    as (inp & produced & Hinv2 & Hlive2 & Hlog2' & _ & _ & _ & Hout2).
  specialize (Hlive2 Hlive1).
  assert (produced = io_produced r1) as ->.
  { rewrite Hlog2 in Hlog2'. apply app_inv_head in Hlog2'. congruence. }
  simpl in Hinv2, Hlive2.
  unfold bind at 1, get_errno at 1 in Eloop.
  rewrite Hrv, Hr1 in Eloop. simpl in Eloop. injection Eloop as <- <- <- <-.
  rewrite Hr1 in Hconv.
  unfold convert_shift in Hconv. run_step Hconv. destruct x as [rv3 o3].
  assert (Hroom : outbufsz o2 = 16 - Z.of_nat (length (io_produced r1))).
  { unfold iconv_input in E1. run_step E1. destruct x as [[? ?] n].
    injection E1 as _ _ <- _. simpl.
    destruct (iconv_exec _ _ _ _ _ _ _ _ _ Hcd0 E3) as (_ & _ & Hlog3). simpl in Hlog3.
    rewrite ?Nat2Z.id, ?firstn_all in Hlog3.
    change (drop (Z.to_nat 0) input) with input in Hlog3.
    destruct (iconv_inv _ _ _ _ _ _ _ _ _ _ Hinv1 E3) as (pr & -> & _ & _ & Hlog3' & _).
    rewrite Hlog3 in Hlog3'. apply app_inv_head in Hlog3'.
    assert (Hpr : pr = io_produced (lib_iconv L st0 (Some input) (Some (outbufsz o1))))
      by congruence.
    rewrite Hsz1 in Hpr. fold r1 in Hpr. rewrite Hpr.
    pose proof (iconv_fits L HL st0 (Some input) 16 ltac:(lia)) as Hfit. fold r1 in Hfit.
    rewrite Hsz1. apply size_t_small. unfold SIZE_MOD. lia. }
  destruct (iconv_flush_exec _ _ _ _ _ _ _ Hcd2 E2) as (Hrv3 & _ & Hlog3).
  simpl in Hrv3, Hlog3. rewrite Hroom in Hrv3, Hlog3. fold r2 in Hrv3, Hlog3.
  destruct (iconv_flush_inv _ _ _ _ _ _ _ _ Hinv2 E2)
    as (produced3 & Hinv3 & Hlive3 & Hlog3' & _ & _ & Hout3).
  specialize (Hlive3 Hlive2).
  assert (produced3 = io_produced r2) as ->.
  { rewrite Hlog3 in Hlog3'. apply app_inv_head in Hlog3'. congruence. }
  rewrite Hrv3, Hr2 in Hconv.
  destruct (convert_finish_inv _ _ _ _ _ _ (proj1 Hinv3) Hlive3 Hconv)
    as (Hf4 & b & q & [= -> -> ->] & Hb & Hlog4 & Hnone & Hsome).
  destruct Hv as [(_ & -> & ->)|(? & _)]; [|done].
  exists b, rv0, (output o1), q. fold written in Hnone, Hsome, Hlog4 |- *.
  rewrite Hout3, Hout2 in Hnone, Hsome.
  split_and!; try done.
  - rewrite Hlog4, Hlog3, Hlog2, Hlog1, Hlog0, Hout3, Hout2, Hrv3, Hrv.
    by repeat (progress (simpl; rewrite <- ?app_assoc)).
  - intros Hw. destruct (Hsome Hw) as (bytes & Hh & Htake & Hq).
    exists bytes. split_and!; try done.
    destruct (is_null q); [by destruct Hq|done].
Qed.

(** * The claims *)





(** X16.  What [convert] leaves when it returns 1: the last two calls it made
    are a flush that succeeded and one [realloc] of the buffer to the
    number of bytes that the calls of [iconv] wrote, and that number is the
    length returned.  When bytes were written, the block returned starts
    with exactly these bytes; it has that length when the [realloc]
    succeeded, and when it failed [convert] still returns 1, with the block
    of the old capacity.  When nothing was written the call is
    [realloc(p, 0)], which frees the buffer and returns null: [convert]
    takes this for a failed shrink and returns the pointer to the block
    that is gone.  In every run of [convert] whose last call is a
    [realloc], failed or not, 1 is returned. *)
Theorem convert_success_trims (w w' : W) iv input ret out len :
  fault w = false ->
  convert L junk iv input w = ((ret, out, len), w') ->
  exists rv0 evs,
    log w' = log w ++ EvIconv iv None None [] rv0 :: evs /\
    (ret <> 0 ->
     succeeded_with (heap w) w' (ret, out, len) evs (produced_of evs)) /\
    (forall pre p n q, evs = pre ++ [EvRealloc p n q] -> ret = 1).
Proof.
  intros Hf Hconv.
  destruct (convert_inv _ _ _ _ _ Hf Hconv)
    as (rv0 & loop & post & Hlog & _ & _ & _ & Hcases & Hres).
  exists rv0, (loop ++ post). split; [done|]. split.
  - intros Hret. destruct Hres as [([= -> _ _] & _)|Hres]; done.
  - intros pre p n q Hevs.
    destruct Hcases as [(pre' & f & p' & -> & _ & -> & _)|[_ Htrace]].
    + rewrite <- app_assoc in Hevs. simpl in Hevs.
      change [f; EvFree p'] with ([f] ++ [EvFree p']) in Hevs.
      rewrite app_assoc in Hevs. by apply app_inj_tail in Hevs as [_ ?].
    + simpl in Htrace.
      assert (Hlast : forall (xs : list event) y, loop ++ xs ++ [y] = pre ++ [EvRealloc p n q] ->
                        y = EvRealloc p n q).
      { intros xs y H. rewrite app_assoc in H. by apply app_inj_tail in H as [_ ?]. }
      inversion Htrace as [? ? ? ? ? ? Hp|? ? ? ? ? Hp|? ? ? ? Hp|? ? ? ? ? ? ? ? Hp|? ? ? ? ? ? ? ? ? ? Hp];
        subst; try done.
      * by specialize (Hlast [_] _ Hevs).
      * by specialize (Hlast [_; _] _ Hevs).
      * by specialize (Hlast [_; _; _] _ Hevs).
Qed.

(** C6, as amended.  Converting a zero-length input runs the body of the
    loop: it grows the buffer to 16 bytes and calls [iconv] on the empty
    input.  When that allocation succeeds and [iconv] reports no failure on
    the empty input and on the flush, the loop runs once, [convert] makes
    these and two more calls (the flush and the [realloc] that trims the
    buffer), and the binding returns a buffer and throws nothing; the
    length of the buffer is the number of bytes that the two calls of
    [iconv] wrote, and when they wrote any, the buffer is a block that the
    conversion allocated and that holds exactly these bytes. *)
Theorem convert_empty_input (w w' : W) iv st rest v :
  fault w = false ->
  cds w !! iv = Some st ->
  allocs w = true :: rest ->
  let st0 := io_state (lib_iconv L st None None) in
  let r1 := lib_iconv L st0 (Some []) (Some 16) in
  let r2 := lib_iconv L (io_state r1) None
              (Some (16 - Z.of_nat (length (io_produced r1)))) in
  let written := io_produced r1 ++ io_produced r2 in
  is_failed (io_rv r1) = false ->
  is_failed (io_rv r2) = false ->
  Iconv_Convert L junk iv [] w = (v, w') ->
  exists b rv0 q1 q,
    v = Buffer_New (Ptr b 0) (Z.of_nat (length written)) /\
    heap w !! b = None /\
    log w' = log w ++
      [EvIconv iv None None [] rv0;
       EvRealloc Null 16 q1;
       EvIconv iv (Some []) (Some 16) (io_produced r1) (io_rv r1);
       EvIconv iv None (Some (16 - Z.of_nat (length (io_produced r1))))
         (io_produced r2) (io_rv r2);
       EvRealloc q1 (Z.of_nat (length written)) q] /\
    (written <> [] ->
     exists bytes,
       heap w' = <[b := bytes]> (heap w) /\
       take (length written) bytes = written).
Proof.
  intros Hf Hcd Hallocs st0 r1 r2 written Hr1 Hr2 Hrun.
  destruct (convert_one_round w w' iv [] st rest v Hf Hcd Hallocs Hr1 Hr2 Hrun)
    as (b & rv0 & q1 & q & Hv & Hb & Hlog & _ & Hsome).
  exists b, rv0, q1, q. split_and!; try done.
  intros Hw. destruct (Hsome Hw) as (bytes & Hh & Htake & _).
  by exists bytes.
Qed.

(** C7.  [Iconv::New] on the public arguments (source, target) makes one
    call of [iconv_open], with the fixed-up target name first and the
    fixed-up source name second, and what it returns is what that call
    gave: the new converter, or an exception. *)
Theorem Iconv_New_inverts (w : W) (src tgt : js_string V) :
  let tocode := fixEncodingName (AsciiValue V tgt) in
  let fromcode := fixEncodingName (AsciiValue V src) in
  let '(v, w') := Iconv_New L V src tgt w in
  exists r,
    log w' = log w ++ [EvOpen tocode fromcode r] /\
    match lib_open L tocode fromcode with
    | inl e => r = None /\ exists exn, v = ThrowException exn
    | inr st => exists conv, r = Some conv /\ v = This conv /\
                             cds w !! conv = None /\ cds w' !! conv = Some st
    end.
Proof.
  intros tocode fromcode. unfold Iconv_New, bind, iconv_open.
  fold tocode fromcode. destruct (lib_open L tocode fromcode) as [e|st]; simpl.
  - exists None. split; [done|]. split; [done|]. eauto.
  - eexists. split; [done|]. eexists. split_and!; try done.
    + apply (not_elem_of_dom (D := gset nat)), is_fresh.
    + by rewrite lookup_insert_eq.
Qed.

(** C9.  When [iconv_open] rejects the pair of names, [Iconv::New] throws
    the exception that carries the [errno] of the failure, the name
    "iconv_open" and the message "Conversion not supported."; no descriptor
    is added and no converter is returned. *)
Theorem Iconv_New_unsupported (w : W) (src tgt : js_string V) e :
  lib_open L (fixEncodingName (AsciiValue V tgt))
             (fixEncodingName (AsciiValue V src)) = inl e ->
  exists w',
    Iconv_New L V src tgt w =
      (ThrowException
         (ErrnoException e "iconv_open" (Some "Conversion not supported.")), w') /\
    cds w' = cds w /\ heap w' = heap w /\ errno w' = e.
Proof.
  intros Hopen. unfold Iconv_New, bind, iconv_open. rewrite Hopen. simpl.
  eexists. by split_and!.
Qed.

(** C10.  On a string argument [Iconv::Convert] does what it does on the
    buffer of the UTF-8 bytes of the string, whatever the descriptor
    [self]: the conversion loop starts with the growth to 16 bytes and, when
    that succeeded, its first call of [iconv] is given exactly these bytes
    as input. *)
Theorem Iconv_Convert_string_utf8 (w : W) self (s : js_string V) :
  fault w = false ->
  Iconv_Convert_args L junk V self (JsString s) w
  = Iconv_Convert_args L junk V self (JsBuffer (Utf8Value V s)) w /\
  exists rv0 loop tail,
    log (snd (Iconv_Convert_args L junk V self (JsString s) w))
    = log w ++ EvIconv self None None [] rv0 :: loop ++ tail /\
    loop_starts self (Utf8Value V s) Null 16 16 loop.
Proof.
  intros Hf. split; [done|]. simpl.
  destruct (Iconv_Convert L junk self (Utf8Value V s) w) as [v w'] eqn:Hrun.
  destruct (Iconv_Convert_inv _ _ _ _ _ Hrun)
    as (ret & out & len & w1 & Hconv & Hv).
  destruct (convert_inv _ _ _ _ _ Hf Hconv)
    as (rv0 & loop & post & Hlog & _ & Hstart & _).
  exists rv0, loop. simpl.
  destruct Hv as [(_ & _ & ->)|(_ & _ & _ & _ & _ & tail & -> & _)].
  - by exists post.
  - exists (post ++ tail). split; [|done]. rewrite Hlog.
    by repeat (progress (simpl; rewrite <- ?app_assoc)).
Qed.

End Properties.

(** * The fixup of encoding names *)

Lemma fixEncodingName_alt name : fixEncodingName name = fix_alt name.
Proof.
  unfold fixEncodingName, fix_alt.
  destruct (_ && _); [|done].
  destruct (str_from name 3) as [|c s]; [done|].
  destruct c as [[] [] [] [] [] [] [] []]; reflexivity.
Qed.

Lemma code_inj c d : code c = code d -> c = d.
Proof.
  unfold code. intros H%N2Z.inj.
  by rewrite <- (ascii_N_embedding c), <- (ascii_N_embedding d), H.
Qed.

Lemma cmp_char_0 c d : (cmp_char c d =? 0) = bool_decide (c = d).
Proof.
  unfold cmp_char. case_bool_decide as H.
  - subst. rewrite Z.ltb_irrefl. done.
  - destruct (Z.ltb_spec (code c) (code d)); [done|].
    destruct (Z.ltb_spec (code d) (code c)); [done|].
    exfalso. apply H, code_inj. lia.
Qed.

Lemma strcmp_0 a : forall b, (strcmp a b =? 0) = bool_decide (a = b).
Proof.
  induction a as [|c a IH]; intros [|d b]; simpl; try done.
  rewrite cmp_char_0. case_bool_decide as Hc.
  - subst. rewrite IH. apply bool_decide_ext. split; congruence.
  - rewrite cmp_char_0, bool_decide_false by done.
    rewrite bool_decide_false; [done|congruence].
Qed.

Lemma strcasecmp_0 a : forall b,
  (strcasecmp a b =? 0) = bool_decide (lower a = lower b).
Proof.
  induction a as [|c a IH]; intros [|d b]; simpl; try done.
  rewrite cmp_char_0. case_bool_decide as Hc.
  - rewrite Hc, IH. apply bool_decide_ext. split; congruence.
  - rewrite cmp_char_0, bool_decide_false by done.
    rewrite bool_decide_false; [done|congruence].
Qed.

(** A character that [tolower] maps to a character that is not a small
    letter is that character. *)
Lemma tolower_plain c d :
  tolower c = d -> (code d <? 97) || (122 <? code d) = true -> c = d.
Proof.
  intros <-.
  destruct c as [[] [] [] [] [] [] [] []]; vm_compute; congruence.
Qed.

Lemma lower_nil s : lower s = EmptyString -> s = EmptyString.
Proof. by destruct s. Qed.

Lemma lower_plain1 s d :
  lower s = String d EmptyString -> (code d <? 97) || (122 <? code d) = true ->
  s = String d EmptyString.
Proof.
  destruct s as [|c s]; [done|]. simpl. intros [= Hc Hs] Hd.
  by rewrite (tolower_plain _ _ Hc Hd), (lower_nil _ Hs).
Qed.

Lemma strncasecmp_UTF c0 c1 c2 rest :
  (strncasecmp (String c0 (String c1 (String c2 rest))) "UTF" 3 =? 0)
  = bool_decide (tolower c0 = "u"%char /\ tolower c1 = "t"%char /\
                 tolower c2 = "f"%char).
Proof.
  cbn [strncasecmp].
  change (tolower "U") with "u"%char. change (tolower "T") with "t"%char.
  change (tolower "F") with "f"%char.
  rewrite !cmp_char_0.
  destruct (decide (tolower c0 = "u"%char)) as [H0|H0].
  2:{ rewrite (bool_decide_false _ H0), cmp_char_0, (bool_decide_false _ H0).
      symmetry. apply bool_decide_false. tauto. }
  rewrite (bool_decide_true _ H0).
  destruct (decide (tolower c1 = "t"%char)) as [H1|H1].
  2:{ rewrite (bool_decide_false _ H1), cmp_char_0, (bool_decide_false _ H1).
      symmetry. apply bool_decide_false. tauto. }
  rewrite (bool_decide_true _ H1).
  destruct (decide (tolower c2 = "f"%char)) as [H2|H2].
  2:{ rewrite (bool_decide_false _ H2), cmp_char_0, (bool_decide_false _ H2).
      symmetry. apply bool_decide_false. tauto. }
  rewrite (bool_decide_true _ H2). simpl. symmetry. by apply bool_decide_true.
Qed.

Lemma strncasecmp_short name :
  (String.length name < 3)%nat -> (strncasecmp name "UTF" 3 =? 0) = false.
Proof.
  destruct name as [|c0 [|c1 [|c2 rest]]]; simpl; try lia; intros _; try done.
  - destruct (cmp_char (tolower c0) (tolower "U") =? 0) eqn:E; done.
  - destruct (cmp_char (tolower c0) (tolower "U") =? 0) eqn:E; [|done].
    destruct (cmp_char (tolower c1) (tolower "T") =? 0) eqn:E'; done.
Qed.

Lemma lower_plain1_iff s d :
  (code d <? 97) || (122 <? code d) = true -> tolower d = d ->
  s = String d EmptyString <-> lower s = String d EmptyString.
Proof.
  intros Hd Hd'. split.
  - intros ->. simpl. by rewrite Hd'.
  - intros H. by apply lower_plain1.
Qed.

Ltac alias_cases :=
  repeat case_bool_decide; repeat case_decide; try congruence.

Theorem fixEncodingName_spec name : fixEncodingName name = fix_spec name.
Proof.
  rewrite fixEncodingName_alt. unfold fix_alt, fix_spec, utf_aliases.
  cbn [lookup_alias].
  change (lower "UTF16") with "utf16"%string.
  change (lower "UTF16LE") with "utf16le"%string.
  change (lower "UTF16BE") with "utf16be"%string.
  change (lower "UTF32") with "utf32"%string.
  change (lower "UTF32LE") with "utf32le"%string.
  change (lower "UTF32BE") with "utf32be"%string.
  change (lower "UTF7") with "utf7"%string.
  change (lower "UTF8") with "utf8"%string.
  destruct name as [|c0 [|c1 [|c2 rest]]].
  1-3: rewrite strncasecmp_short by (simpl; lia); simpl; alias_cases.
  rewrite strncasecmp_UTF. cbn [lower].
  case_bool_decide as HU.
  2:{ simpl. repeat case_decide; try done; exfalso; apply HU; split_and!; congruence. }
  destruct HU as (-> & -> & ->).
  destruct rest as [|c3 s].
  { simpl. alias_cases. }
  cbn [andb char_at String.get default from_option str_from lower id].
  destruct (decide (c3 = "-"%char)) as [->|Ndash].
  { simpl. change (tolower "-") with "-"%char. alias_cases. }
  unfold id. rewrite (proj2 (Ascii.eqb_neq c3 "-") Ndash). cbn [negb].
  destruct (decide (c3 = "1"%char)) as [->|N1].
  { cbn [Ascii.eqb Bool.eqb]. change (tolower "1") with "1"%char.
    rewrite strcmp_0, !strcasecmp_0.
    rewrite (bool_decide_ext _ _ (lower_plain1_iff s "6" eq_refl eq_refl)).
    change (lower "6LE") with "6le"%string. change (lower "6BE") with "6be"%string.
    generalize (lower s). intros ls. alias_cases. }
  rewrite (proj2 (Ascii.eqb_neq c3 "1") N1).
  destruct (decide (c3 = "3"%char)) as [->|N3].
  { cbn [Ascii.eqb Bool.eqb]. change (tolower "3") with "3"%char.
    rewrite strcmp_0, !strcasecmp_0.
    rewrite (bool_decide_ext _ _ (lower_plain1_iff s "2" eq_refl eq_refl)).
    change (lower "2LE") with "2le"%string. change (lower "2BE") with "2be"%string.
    generalize (lower s). intros ls. alias_cases. }
  rewrite (proj2 (Ascii.eqb_neq c3 "3") N3).
  destruct (decide (c3 = "7"%char)) as [->|N7].
  { cbn [Ascii.eqb Bool.eqb]. change (tolower "7") with "7"%char.
    destruct s; simpl; alias_cases. }
  rewrite (proj2 (Ascii.eqb_neq c3 "7") N7).
  destruct (decide (c3 = "8"%char)) as [->|N8].
  { cbn [Ascii.eqb Bool.eqb]. change (tolower "8") with "8"%char.
    destruct s; simpl; alias_cases. }
  rewrite (proj2 (Ascii.eqb_neq c3 "8") N8).
  repeat case_decide; try done;
    match goal with
    | H : String _ _ = String _ _ |- _ =>
      injection H as H _; apply tolower_plain in H; [congruence|reflexivity]
    end.
Qed.

(** The aliases of the specification, one by one. *)
Lemma fixEncodingName_examples :
  fixEncodingName "UTF8" = "UTF-8" /\ fixEncodingName "UTF16LE" = "UTF-16LE" /\
  fixEncodingName "UTF16" = "UTF-16" /\ fixEncodingName "UTF16BE" = "UTF-16BE" /\
  fixEncodingName "UTF32" = "UTF-32" /\ fixEncodingName "UTF32LE" = "UTF-32LE" /\
  fixEncodingName "UTF32BE" = "UTF-32BE" /\ fixEncodingName "UTF7" = "UTF-7" /\
  fixEncodingName "utf8" = "UTF-8" /\ fixEncodingName "Utf16le" = "UTF-16LE".
Proof. by vm_compute. Qed.

Lemma lookup_alias_none name table :
  Forall (fun a => lower name <> lower a.1) table ->
  lookup_alias name table = name.
Proof.
  induction 1 as [|[alias canonical] table Hne _ IH]; [done|].
  simpl in *. by rewrite decide_False.
Qed.

(** C8.  [fixEncodingName] maps the unhyphenated aliases to the canonical
    names, "UTF8" to "UTF-8", "UTF16LE" to "UTF-16LE" and so on, whatever
    the letter case; on every name it agrees with the table of aliases of
    the specification read without regard to letter case; so a name that
    is none of the aliases is returned unchanged, and so is a name with "-"
    as its fourth character. *)
Theorem fixEncodingName_aliases :
  (fixEncodingName "UTF8" = "UTF-8" /\ fixEncodingName "UTF16LE" = "UTF-16LE" /\
   fixEncodingName "UTF16" = "UTF-16" /\ fixEncodingName "UTF16BE" = "UTF-16BE" /\
   fixEncodingName "UTF32" = "UTF-32" /\ fixEncodingName "UTF32LE" = "UTF-32LE" /\
   fixEncodingName "UTF32BE" = "UTF-32BE" /\ fixEncodingName "UTF7" = "UTF-7" /\
   fixEncodingName "utf8" = "UTF-8" /\ fixEncodingName "Utf16le" = "UTF-16LE") /\
  (forall name, fixEncodingName name = fix_spec name) /\
  (forall name,
     Forall (fun a => lower name <> lower a.1) utf_aliases ->
     fixEncodingName name = name) /\
  (forall name, char_at name 3 = "-"%char -> fixEncodingName name = name).
Proof.
  split; [exact fixEncodingName_examples|].
  split; [exact fixEncodingName_spec|]. split.
  - intros name Hnone. rewrite fixEncodingName_spec. by apply lookup_alias_none.
  - intros name Hdash. unfold fixEncodingName. rewrite Hdash.
    by rewrite andb_false_r.
Qed.

(** * The small library keeps the contract *)

Lemma toy_copy_length n : forall inp room consumed out,
  (length inp <= n)%nat ->
  (length (toy_copy inp room consumed out).1.2 <= length out + room)%nat.
Proof.
  induction n as [|n IH]; intros [|c rest] room consumed out Hn;
    simpl in *; try lia.
  destruct (Byte.eqb c xff); [simpl; lia|].
  destruct (Byte.eqb c xc3).
  - destruct rest as [|d rest]; [simpl; lia|].
    destruct room as [|[|room]]; simpl; try lia.
    destruct n as [|n]; [simpl in Hn; lia|].
    etransitivity; [apply (IH rest); simpl in *; lia|].
    rewrite length_app. simpl. lia.
  - destruct room as [|room]; simpl; try lia.
    etransitivity; [apply (IH rest); lia|].
    rewrite length_app. simpl. lia.
Qed.

Lemma toy_contract : iconv_contract toy.
Proof.
  split.
  - intros st inp room Hroom. change (lib_iconv toy) with toy_iconv.
    unfold toy_iconv. destruct inp as [[|c inp]|]; cbn -[toy_copy]; try lia.
    + destruct (toy_stateful st && negb (toy_shifted st)).
      * destruct (Z.leb_spec room 0); [simpl; lia|].
        pose proof (toy_copy_length _ (c :: inp) (Z.to_nat room - 1) 0 [x0e] (le_n _)) as Hcopy.
        destruct (toy_copy (c :: inp) (Z.to_nat room - 1) 0 [x0e]) as [[k out] rv].
        simpl in *. lia.
      * pose proof (toy_copy_length _ (c :: inp) (Z.to_nat room) 0 [] (le_n _)) as Hcopy.
        destruct (toy_copy (c :: inp) (Z.to_nat room) 0 []) as [[k out] rv].
        simpl in *. lia.
    + destruct (toy_shifted st); [|simpl; lia].
      destruct (Z.leb_spec room 0); simpl; lia.
  - intros st [inp|]; reflexivity.
Qed.

(** * Runs of the small library *)

(** Thirty-eight characters into the stateful encoding: the buffer grows
    from 16 to 32 to 64 bytes and is trimmed to the 40 bytes written, the
    text between the two shift bytes. *)
Example convert_across_growth :
  let '(v, w) := Iconv_Convert toy x00 0
                   (bytes_of "hello world, this is more than sixteen")
                   (toy_world [true; true; true; true] stateful) in
  v = Buffer_New (Ptr 0 0) 40 /\
  heap w !! 0%nat
  = Some ([x0e] ++ bytes_of "hello world, this is more than sixteen" ++ [x0f]) /\
  fault w = false.
Proof. by vm_compute. Qed.

(** The same with an allocator that moves the block at the first growth
    and at the shrink, and leaves it in place at the second growth: the
    buffer returned is the block that the shrink returned. *)
Example convert_across_moves :
  let '(v, w) := Iconv_Convert toy x00 0
                   (bytes_of "hello world, this is more than sixteen")
                   (moving_world [true; true; true; true]
                                 [true; true; false; true] stateful) in
  v = Buffer_New (Ptr 2 0) 40 /\
  realloc_results (log w) = [Ptr 0 0; Ptr 1 0; Ptr 1 0; Ptr 2 0] /\
  heap w
  = {[ 2%nat := [x0e] ++ bytes_of "hello world, this is more than sixteen"
                 ++ [x0f] ]} /\
  fault w = false.
Proof. by vm_compute. Qed.

(** The same, when the second growth finds no memory. *)
Example convert_out_of_memory :
  let '(v, w) := Iconv_Convert toy x00 0
                   (bytes_of "hello world, this is more than sixteen")
                   (toy_world [true; false] stateful) in
  v = ThrowException (ErrnoException ENOMEM "iconv" (Some "Out of memory.")) /\
  heap w = ∅ /\ fault w = false.
Proof. by vm_compute. Qed.

(** [new Iconv("utf8", "UTF16LE")]. *)
Example Iconv_New_utf8 :
  let '(v, w) := Iconv_New toy ascii_strings "utf8" "UTF16LE" (toy_world [] stateless) in
  v = This 1 /\ log w = [EvOpen "UTF-16LE" "UTF-8" (Some 1%nat)].
Proof. by vm_compute. Qed.

(** * The claims on runs of the small library *)

Lemma run_eq {A B} (r : A * B) : r = (r.1, r.2).
Proof. by destruct r. Qed.


Lemma run_eq4 {A B C D} (r : A * B * C * D) :
  r = (r.1.1.1, r.1.1.2, r.1.2, r.2).
Proof. by destruct r as [[[? ?] ?] ?]. Qed.






(** C5.  The code breaks the claim on an output of zero bytes.  The empty
    input into the stateless encoding writes nothing, so the shrink of
    line 113 is [realloc(p, 0)]: it frees the 16 bytes of the buffer and
    returns null.  [convert] takes the null for a failed shrink, keeps [p]
    in [*output] and returns 1: no block is live after the call, the
    pointer that [Iconv::Convert] hands to [Buffer::New] owns nothing, and
    [FreeMemory] on it, which V8 runs when it collects the buffer, frees
    the block a second time. *)
Lemma convert_shrink_to_zero_frees :
  ex_dangling_convert.1 = (1, Ptr 0 0, 0) /\
  log ex_dangling_convert.2 =
    [EvIconv 0 None None [] (Converted 0);
     EvRealloc Null 16 (Ptr 0 0);
     EvIconv 0 (Some []) (Some 16) [] (Converted 0);
     EvIconv 0 None (Some 16) [] (Converted 0);
     EvRealloc (Ptr 0 0) 0 Null] /\
  heap ex_dangling_convert.2 = ∅ /\
  owned (heap ex_dangling_convert.2) (Ptr 0 0) = None /\
  ex_dangling_run.1 = Buffer_New (Ptr 0 0) 0 /\
  fault ex_dangling_run.2 = false /\
  fault (FreeMemory toy (Ptr 0 0) ex_dangling_run.2).2 = true.
Proof. by vm_compute. Qed.

Lemma convert_success_trims_witness :
  fault ex_trim_world = false /\
  ex_trim_run.1 = (1, Ptr 0 0, 5) /\
  last (log ex_trim_run.2) = Some (EvRealloc (Ptr 0 0) 5 Null) /\
  heap ex_trim_run.2 !! 0%nat = Some (bytes_of "hello" ++ replicate 11 x00) /\
  exists rv0 evs,
    log ex_trim_run.2 = log ex_trim_world ++ EvIconv 0 None None [] rv0 :: evs /\
    (ex_trim_run.1.1.1 <> 0 ->
     succeeded_with (heap ex_trim_world) ex_trim_run.2
       (ex_trim_run.1.1.1, ex_trim_run.1.1.2, ex_trim_run.1.2) evs (produced_of evs)) /\
    (forall pre p n q, evs = pre ++ [EvRealloc p n q] -> ex_trim_run.1.1.1 = 1).
Proof.
  split; [reflexivity|]. split; [vm_compute; reflexivity|].
  split; [vm_compute; reflexivity|]. split; [vm_compute; reflexivity|].
  apply (convert_success_trims toy x00 toy_contract ex_trim_world _ 0
           (bytes_of "hello") _ _ _ eq_refl).
  exact (run_eq4 ex_trim_run).
Defined.

Lemma trailer_contract : iconv_contract trailer_library.
Proof.
  split.
  - intros st inp room Hroom. change (lib_iconv trailer_library) with trailer_iconv.
    unfold trailer_iconv. destruct inp as [inp|]; [simpl; lia|].
    destruct (Z.ltb_spec room 2); simpl; lia.
  - intros st [inp|]; reflexivity.
Qed.

Lemma convert_empty_input_witness :
  fault ex_trailer_world = false /\
  cds ex_trailer_world !! 0%nat = Some tt /\
  allocs ex_trailer_world = [true; true] /\
  ex_trailer_run.1 = Buffer_New (Ptr 0 0) 2 /\
  heap ex_trailer_run.2 = {[ 0%nat := [x0f; x0f] ]} /\
  let st0 := io_state (lib_iconv trailer_library tt None None) in
  let r1 := lib_iconv trailer_library st0 (Some []) (Some 16) in
  let r2 := lib_iconv trailer_library (io_state r1) None
              (Some (16 - Z.of_nat (length (io_produced r1)))) in
  let written := io_produced r1 ++ io_produced r2 in
  exists b rv0 q1 q,
    ex_trailer_run.1 = Buffer_New (Ptr b 0) (Z.of_nat (length written)) /\
    heap ex_trailer_world !! b = None /\
    log ex_trailer_run.2 = log ex_trailer_world ++
      [EvIconv 0 None None [] rv0;
       EvRealloc Null 16 q1;
       EvIconv 0 (Some []) (Some 16) (io_produced r1) (io_rv r1);
       EvIconv 0 None (Some (16 - Z.of_nat (length (io_produced r1))))
         (io_produced r2) (io_rv r2);
       EvRealloc q1 (Z.of_nat (length written)) q] /\
    (written <> [] ->
     exists bytes,
       heap ex_trailer_run.2 = <[b := bytes]> (heap ex_trailer_world) /\
       take (length written) bytes = written).
Proof.
  split; [reflexivity|]. split; [reflexivity|]. split; [reflexivity|].
  split; [vm_compute; reflexivity|]. split; [vm_compute; reflexivity|].
  exact (convert_empty_input trailer_library x00 trailer_contract
           ex_trailer_world _ 0 tt [true] _
           eq_refl eq_refl eq_refl eq_refl eq_refl (run_eq ex_trailer_run)).
Defined.

Lemma Iconv_New_unsupported_witness :
  lib_open toy (fixEncodingName (AsciiValue ascii_strings "NOT-A-REAL-ENCODING"))
               (fixEncodingName (AsciiValue ascii_strings "UTF8")) = inl EINVAL /\
  exists w',
    Iconv_New toy ascii_strings "UTF8" "NOT-A-REAL-ENCODING" (toy_world [] stateless) =
      (ThrowException
         (ErrnoException EINVAL "iconv_open" (Some "Conversion not supported.")), w') /\
    cds w' = cds (toy_world [] stateless) /\
    heap w' = heap (toy_world [] stateless) /\ errno w' = EINVAL.
Proof.
  assert (Hopen :
    lib_open toy (fixEncodingName (AsciiValue ascii_strings "NOT-A-REAL-ENCODING"))
                 (fixEncodingName (AsciiValue ascii_strings "UTF8")) = inl EINVAL)
    by (vm_compute; reflexivity).
  split; [exact Hopen|].
  exact (Iconv_New_unsupported toy ascii_strings (toy_world [] stateless)
           "UTF8" "NOT-A-REAL-ENCODING" EINVAL Hopen).
Defined.

Lemma Iconv_Convert_string_utf8_witness :
  fault ex_string_world = false /\
  Iconv_Convert_args toy x00 ascii_strings 0 (JsString ("abc" : js_string ascii_strings))
    ex_string_world
  = Iconv_Convert_args toy x00 ascii_strings 0
      (JsBuffer (Utf8Value ascii_strings "abc")) ex_string_world /\
  exists rv0 loop tail,
    log (snd (Iconv_Convert_args toy x00 ascii_strings 0
                (JsString ("abc" : js_string ascii_strings)) ex_string_world))
    = log ex_string_world ++ EvIconv 0 None None [] rv0 :: loop ++ tail /\
    loop_starts 0 (Utf8Value ascii_strings "abc") Null 16 16 loop.
Proof.
  split; [reflexivity|].
  exact (Iconv_Convert_string_utf8 toy x00 ascii_strings toy_contract ex_string_world 0
           ("abc" : js_string ascii_strings) eq_refl).
Defined.

(** C6, as stated, fails on the code.  With memory to spare, the conversion
    of the empty input does return a buffer of zero bytes, but on the way
    the body of the loop has run: [grow] has allocated 16 bytes and [iconv]
    has been called on the empty input; and the buffer is not owned, the
    last call having freed it.  Without memory that first growth fails and
    the conversion of the empty input throws. *)
Lemma convert_empty_input_counterexample :
  (ex_empty_run.1 = Buffer_New (Ptr 0 0) 0 /\
   log ex_empty_run.2 =
     [EvIconv 0 None None [] (Converted 0);
      EvRealloc Null 16 (Ptr 0 0);
      EvIconv 0 (Some []) (Some 16) [] (Converted 0);
      EvIconv 0 None (Some 16) [] (Converted 0);
      EvRealloc (Ptr 0 0) 0 Null] /\
   owned (heap ex_empty_run.2) (Ptr 0 0) = None) /\
  (ex_empty_oom_run.1 =
     ThrowException (ErrnoException ENOMEM "iconv" (Some "Out of memory.")) /\
   log ex_empty_oom_run.2 =
     [EvIconv 0 None None [] (Converted 0);
      EvRealloc Null 16 Null;
      EvFree Null;
      EvLowMemoryNotification]).
Proof. by vm_compute. Qed.

(** * More of the binding *)

Section Lifecycle_properties.

Variable L : iconv_library.
Variable junk : byte.
Variable V : v8_strings.
Hypothesis HL : iconv_contract L.

Local Abbreviation W := (world (cd_state L)).

Ltac step_in H :=
  match type of H with
  | bind ?m ?k ?w = _ =>
    let x := fresh "x" in let w1 := fresh "w" in let E := fresh "E" in
    unfold bind at 1 in H; destruct (m w) as [x w1] eqn:E
  end.

(** In a trace of [shift_trace] that ends with 1 nothing is freed. *)
Lemma shift_trace_no_free iv post :
  shift_trace iv post 1 -> Forall (fun e => forall p, e <> EvFree p) post.
Proof. inversion 1; subst; by repeat constructor. Qed.

Lemma loop_event_no_free iv loop :
  Forall (loop_event iv) loop -> Forall (fun e => forall p, e <> EvFree p) loop.
Proof.
  intros H. eapply Forall_impl; [exact H|]. intros [] He p'; done.
Qed.

(** X1.  A buffer of one byte or more that [Iconv::Convert] hands out
    has not been freed by the conversion, and [FreeMemory] on it, the
    callback that V8 runs when it collects the buffer, gives the heap back
    as it was before the conversion, without undefined behaviour: no leak
    and no double free. *)
Theorem Iconv_Convert_then_FreeMemory (w w' : W) self input data len :
  fault w = false ->
  0 < len ->
  Iconv_Convert L junk self input w = (Buffer_New data len, w') ->
  (exists evs, log w' = log w ++ evs /\
               Forall (fun e => forall p, e <> EvFree p) evs) /\
  is_Some (owned (heap w') data) /\
  heap (FreeMemory L data w').2 = heap w /\
  fault (FreeMemory L data w').2 = false /\
  log (FreeMemory L data w').2 = log w' ++ [EvFree data].
Proof.
  intros Hf Hlen Hrun.
  destruct (Iconv_Convert_inv L junk _ _ _ _ _ Hrun)
    as (ret & out & len' & w1 & Hconv & [(Hret & [= <- <-] & ->)|(_ & [=] & _)]).
  destruct (convert_inv L junk HL _ _ _ _ _ Hf Hconv)
    as (rv0 & loop & post & Hlog & Hloop & _ & Hf' & Hcases & Hres).
  destruct Hres as [([= -> _ _] & _)|Hres]; [done|].
  destruct Hres as (b & pre & fl & p & q & [= -> -> ->] & Hb & _ & _ & _ & Hsome).
  assert (Hne : produced_of (loop ++ post) <> []).
  { intros Hnil. rewrite Hnil in Hlen. simpl in Hlen. lia. }
  destruct (Hsome Hne) as (bytes & Hh & _).
  split.
  - exists (EvIconv self None None [] rv0 :: loop ++ post). split; [done|].
    constructor; [done|]. apply Forall_app. split.
    + by eapply loop_event_no_free.
    + destruct Hcases as [(? & ? & ? & _ & _ & _ & [=])|[_ Htrace]].
      by eapply shift_trace_no_free.
  - unfold FreeMemory, free. simpl. rewrite Hh, lookup_insert_eq. simpl.
    split; [by eexists|]. by rewrite delete_insert_eq, delete_id.
Qed.

(** X15.  A buffer of zero bytes that [Iconv::Convert] hands out is a
    pointer to a block that the conversion has already freed, by the
    [realloc(p, 0)] of line 113: nothing of the conversion is live, the
    pointer owns nothing, and [FreeMemory] on it frees the block a second
    time, which is undefined behaviour. *)
Theorem Iconv_Convert_empty_then_FreeMemory (w w' : W) self input data :
  fault w = false ->
  Iconv_Convert L junk self input w = (Buffer_New data 0, w') ->
  (exists pre, log w' = log w ++ pre ++ [EvRealloc data 0 Null]) /\
  data <> Null /\
  heap w' = heap w /\
  owned (heap w') data = None /\
  fault w' = false /\
  fault (FreeMemory L data w').2 = true.
Proof.
  intros Hf Hrun.
  destruct (Iconv_Convert_inv L junk _ _ _ _ _ Hrun)
    as (ret & out & len' & w1 & Hconv & [(Hret & [= <- <-] & ->)|(_ & [=] & _)]).
  destruct (convert_inv L junk HL _ _ _ _ _ Hf Hconv)
    as (rv0 & loop & post & Hlog & Hloop & _ & Hf' & Hcases & Hres).
  destruct Hres as [([= -> _] & _)|Hres]; [done|].
  destruct Hres as (b & pre & fl & p & q & [= -> -> Hlen] & Hb & Hevs & _ & Hnone & _).
  assert (Hnil : produced_of (loop ++ post) = []).
  { destruct (produced_of (loop ++ post)); [done|]. simpl in Hlen. lia. }
  rewrite Hnil in Hevs. destruct (Hnone Hnil) as (-> & -> & Hh).
  assert (Hown : owned (heap w1) (Ptr b 0) = None).
  { simpl. by rewrite Hh. }
  split_and!; try done.
  - exists (EvIconv self None None [] rv0 :: pre ++ [fl]).
    rewrite Hlog, Hevs. simpl. by rewrite <- !app_assoc.
  - unfold FreeMemory, free. by rewrite Hown.
Qed.

(** X2.  A converter that [Iconv::New] returned is open, and destroying it
    closes its descriptor and no other: the descriptors are again the ones
    that were open before the construction. *)
Theorem Iconv_New_then_dtor (w w' : W) (src tgt : js_string V) conv :
  Iconv_New L V src tgt w = (This conv, w') ->
  is_Some (cds w' !! conv) /\
  cds (Iconv_dtor L conv w').2 = cds w /\
  heap (Iconv_dtor L conv w').2 = heap w.
Proof.
  unfold Iconv_New, bind, iconv_open.
  destruct (lib_open L _ _) as [e|st]; simpl; [done|].
  intros [= <- <-]. simpl.
  assert (Hfresh : cds w !! fresh (dom (cds w)) = None)
    by apply (not_elem_of_dom (D := gset nat)), is_fresh.
  unfold Iconv_dtor, bind, iconv_close. simpl.
  rewrite lookup_insert_eq. simpl. split; [eauto|].
  by rewrite delete_insert_eq, delete_id.
Qed.

(** ** A conversion and the other descriptors *)

Lemma kept_refl iv (w : W) : descriptors_kept iv w w.
Proof. by split. Qed.

Lemma kept_trans iv (w1 w2 w3 : W) :
  descriptors_kept iv w1 w2 -> descriptors_kept iv w2 w3 ->
  descriptors_kept iv w1 w3.
Proof.
  intros [H1 H1'] [H2 H2']. split.
  - intros j Hj. by rewrite H2, H1.
  - auto.
Qed.

Lemma kept_same iv (w w' : W) : cds w' = cds w -> descriptors_kept iv w w'.
Proof. intros H. split; intros; by rewrite H. Qed.

Lemma realloc_cds p n (w : W) : cds (realloc L junk p n w).2 = cds w.
Proof.
  unfold realloc. destruct (owned (heap w) p); [|done].
  destruct (negb (is_null p) && (n =? 0)); [done|].
  by destruct (match allocs w with [] => _ | _ => _ end).
Qed.

Lemma free_cds p (w : W) : cds (free L p w).2 = cds w.
Proof. unfold free. by destruct (owned (heap w) p). Qed.

Lemma grow_kept iv o (w : W) : descriptors_kept iv w (grow L junk o w).2.
Proof.
  apply kept_same. unfold grow, bind.
  pose proof (realloc_cds (output o)
                (if outlen o =? 0 then 16 else size_t (outlen o * 2)) w) as H.
  destruct (realloc L junk _ _ w) as [q w1]. simpl in H.
  by destruct (is_null q).
Qed.

Lemma iconv_kept iv inp out (w : W) : descriptors_kept iv w (iconv L iv inp out w).2.
Proof.
  unfold iconv, descriptors_kept. destruct (cds w !! iv) as [st|] eqn:Hcd; simpl.
  - match goal with |- context [store L ?p ?bs ?w0] =>
      destruct (store_frame L p bs w0) as (-> & _ & _) end.
    split.
    + intros j Hj. destruct (io_rv _); simpl; by rewrite lookup_insert_ne.
    + intros _. destruct (io_rv _); simpl; rewrite lookup_insert_eq; eauto.
  - split; [done|]. by intros [? ?].
Qed.

Lemma iconv_input_kept iv input i o (w : W) :
  descriptors_kept iv w (iconv_input L iv input i o w).2.
Proof.
  unfold iconv_input, bind.
  pose proof (iconv_kept iv
    (Some (take (Z.to_nat (inbufsz i)) (drop (Z.to_nat (inbuf i)) input)))
    (Some (outbuf o, outbufsz o)) w) as H.
  by destruct (iconv L iv _ _ w) as [[[rv c] n] w1].
Qed.

Lemma iconv_flush_kept iv o (w : W) :
  descriptors_kept iv w (iconv_flush L iv o w).2.
Proof.
  unfold iconv_flush, bind.
  pose proof (iconv_kept iv None (Some (outbuf o, outbufsz o)) w) as H.
  by destruct (iconv L iv _ _ w) as [[[rv c] n] w1].
Qed.

Lemma iconv_reset_kept iv (w : W) :
  descriptors_kept iv w (iconv_reset L iv w).2.
Proof.
  unfold iconv_reset, bind.
  pose proof (iconv_kept iv None None w) as H.
  by destruct (iconv L iv _ _ w) as [[[rv c] n] w1].
Qed.

Lemma convert_loop_kept fuel : forall iv input i o (w : W),
  descriptors_kept iv w (convert_loop L junk fuel iv input i o w).2.
Proof.
  induction fuel as [|fuel IH]; intros iv input i o w; [apply kept_refl|].
  simpl. unfold bind, get_errno.
  pose proof (grow_kept iv o w) as Hg.
  destruct (grow L junk o w) as [[ok o1] w1]. simpl in Hg.
  destruct (ok =? 0); [done|].
  pose proof (iconv_input_kept iv input i o1 w1) as Hi.
  destruct (iconv_input L iv input i o1 w1) as [[[rv i2] o2] w2]. simpl in Hi.
  destruct (is_failed rv && (errno w2 =? E2BIG)).
  - eapply kept_trans; [|apply IH]. by eapply kept_trans.
  - by eapply kept_trans.
Qed.

Lemma convert_error_kept iv o (w : W) :
  descriptors_kept iv w (convert_error L o w).2.
Proof.
  apply kept_same. unfold convert_error, bind.
  pose proof (free_cds (output o) w) as H.
  by destruct (free L (output o) w).
Qed.

Lemma convert_finish_kept iv o (w : W) :
  descriptors_kept iv w (convert_finish L junk o w).2.
Proof.
  apply kept_same. unfold convert_finish, bind.
  pose proof (realloc_cds (output o)
                (size_t (ptr_diff (outbuf o) (output o))) w) as H.
  by destruct (realloc L junk _ _ w).
Qed.

Lemma convert_shift_kept iv o (w : W) :
  descriptors_kept iv w (convert_shift L junk iv o w).2.
Proof.
  unfold convert_shift, bind, get_errno.
  pose proof (iconv_flush_kept iv o w) as H1.
  destruct (iconv_flush L iv o w) as [[rv o1] w1]. simpl in H1.
  destruct (is_failed rv);
    [|eapply kept_trans; [exact H1|apply convert_finish_kept]].
  destruct (negb (errno w1 =? E2BIG));
    [eapply kept_trans; [exact H1|apply convert_error_kept]|].
  pose proof (grow_kept iv o1 w1) as H2.
  destruct (grow L junk o1 w1) as [[ok o2] w2]. simpl in H2.
  pose proof (kept_trans _ _ _ _ H1 H2) as H12.
  destruct (ok =? 0); [eapply kept_trans; [exact H12|apply convert_error_kept]|].
  pose proof (iconv_flush_kept iv o2 w2) as H3.
  destruct (iconv_flush L iv o2 w2) as [[rv3 o3] w3]. simpl in H3.
  pose proof (kept_trans _ _ _ _ H12 H3) as H123.
  destruct (is_failed rv3); (eapply kept_trans; [exact H123|]);
    [apply convert_error_kept|apply convert_finish_kept].
Qed.

Lemma convert_kept iv input (w : W) :
  descriptors_kept iv w (convert L junk iv input w).2.
Proof.
  unfold convert, bind.
  pose proof (iconv_reset_kept iv w) as H0.
  destruct (iconv_reset L iv w) as [rv0 w0]. simpl in H0.
  match goal with |- context [convert_loop L junk ?f iv input ?i ?o w0] =>
    pose proof (convert_loop_kept f iv input i o w0) as H1;
    destruct (convert_loop L junk f iv input i o w0) as [[[rv i1] o1] w1]
  end.
  simpl in H1. pose proof (kept_trans _ _ _ _ H0 H1) as H01.
  destruct rv as [rv|]; [destruct (is_failed rv)|];
    (eapply kept_trans; [exact H01|]);
    [apply convert_error_kept|apply convert_shift_kept|apply convert_error_kept].
Qed.

(** X3.  A conversion with the converter [self] leaves every other
    descriptor in the state it was in, and leaves [self] open: converters
    do not disturb one another. *)
Theorem Iconv_Convert_other_descriptors (w : W) self input j :
  j <> self ->
  cds (Iconv_Convert L junk self input w).2 !! j = cds w !! j /\
  (is_Some (cds w !! self) ->
   is_Some (cds (Iconv_Convert L junk self input w).2 !! self)).
Proof.
  intros Hj.
  assert (H : descriptors_kept self w (Iconv_Convert L junk self input w).2).
  { unfold Iconv_Convert, bind, get_errno, LowMemoryNotification, modify.
    pose proof (convert_kept self input w) as H.
    destruct (convert L junk self input w) as [[[ret out] len] w1]. simpl in H.
    destruct (negb (ret =? 0)); [done|].
    destruct (errno w1 =? EINVAL); [done|].
    destruct (errno w1 =? EILSEQ); [done|].
    by destruct (errno w1 =? ENOMEM). }
  destruct H as [H1 H2]. auto.
Qed.

(** ** The sizes that a conversion asks for *)

Lemma growth_size j : Z.max 16 (capacity_after j * 2) = 16 * 2 ^ Z.of_nat j.
Proof.
  destruct j as [|j]; [reflexivity|]. simpl capacity_after.
  rewrite Nat2Z.inj_succ, Z.pow_succ_r by lia.
  assert (0 < 2 ^ Z.of_nat j) by (apply Z.pow_pos_nonneg; lia). lia.
Qed.

Lemma growth_sizes_cons j k :
  growth_sizes j (S k) = 16 * 2 ^ Z.of_nat j :: growth_sizes (S j) k.
Proof. reflexivity. Qed.

Lemma growth_sizes_app j a b :
  growth_sizes j a ++ growth_sizes (j + a) b = growth_sizes j (a + b).
Proof. unfold growth_sizes. by rewrite seq_app, fmap_app. Qed.

Lemma realloc_sizes_app evs1 evs2 :
  realloc_sizes (evs1 ++ evs2) = realloc_sizes evs1 ++ realloc_sizes evs2.
Proof. unfold realloc_sizes. by rewrite flat_map_app. Qed.

Lemma iconv_input_outlen iv input i i' o o' rv (w w' : W) :
  iconv_input L iv input i o w = ((rv, i', o'), w') -> outlen o' = outlen o.
Proof.
  unfold iconv_input. intros H. step_in H.
  destruct x as [[rv1 c] n]. by injection H as <- <- <- <-.
Qed.

Lemma iconv_flush_outlen iv o o' rv (w w' : W) :
  iconv_flush L iv o w = ((rv, o'), w') -> outlen o' = outlen o.
Proof.
  unfold iconv_flush. intros H. step_in H.
  destruct x as [[rv1 c] n]. by injection H as <- <- <-.
Qed.

Lemma convert_loop_sizes fuel :
  forall h0 (w w' : W) iv input i i' o o' acc r j,
  buf_inv h0 w o acc -> outlen o = capacity_after j ->
  (length (allocs w) < fuel)%nat ->
  convert_loop L junk fuel iv input i o w = ((r, i', o'), w') ->
  exists evs m,
    log w' = log w ++ evs /\
    realloc_sizes evs = growth_sizes j (S m) /\
    (r <> None -> outlen o' = capacity_after (j + S m)).
Proof.
  induction fuel as [|fuel IH];
    intros h0 w w' iv input i i' o o' acc r j Hinv Hcap Hfuel Hrun; [lia|].
  simpl in Hrun. step_in Hrun. destruct x as [ok o1].
  destruct (grow_inv L junk _ _ _ _ _ _ _ Hinv E)
    as (_ & _ & Hallocs & Hlog &
        [(-> & -> & _)|(-> & Hlen & _ & _ & Hf1 & Hlive1 & (rest & Hrest) & _)]).
  - simpl in Hrun. injection Hrun as <- <- <- <-.
    eexists [_], 0%nat. split; [exact Hlog|]. split; [|done].
    simpl. by rewrite Hcap, growth_size.
  - simpl in Hrun. step_in Hrun. destruct x as [[rv i2] o2].
    assert (Hinv1 : buf_inv h0 w0 o1 acc) by (split; [done|by right]).
    destruct (iconv_input_inv L HL _ _ _ _ _ _ _ _ _ _ _ Hinv1 E0)
      as (inp & produced & Hinv2 & _ & Hlog2 & _ & Hallocs2 & _ & _).
    pose proof (iconv_input_outlen _ _ _ _ _ _ _ _ _ E0) as Hlen2.
    assert (Hcap2 : outlen o2 = capacity_after (S j)).
    { rewrite Hlen2, Hlen, Hcap, growth_size. done. }
    unfold bind, get_errno in Hrun.
    destruct (is_failed rv && (errno w1 =? E2BIG)).
    + apply IH with (h0 := h0) (acc := acc ++ produced) (j := S j) in Hrun;
        [|done|done|rewrite Hallocs2, Hallocs, Hrest in *; simpl in *; lia].
      destruct Hrun as (evs & m & Hlog3 & Hsizes & Hout).
      eexists (_ :: _ :: evs), (S m). split.
      { rewrite Hlog3, Hlog2, Hlog.
        by repeat (progress (simpl; rewrite <- ?app_assoc)). }
      split.
      { simpl. rewrite Hsizes, Hcap, growth_size.
        by rewrite (growth_sizes_cons j (S m)). }
      intros Hr. rewrite (Hout Hr). f_equal. lia.
    + injection Hrun as <- <- <- <-.
      eexists [_; _], 0%nat. split.
      { rewrite Hlog2, Hlog.
        by repeat (progress (simpl; rewrite <- ?app_assoc)). }
      split. { simpl. by rewrite Hcap, growth_size. }
      intros _. rewrite Hcap2. f_equal. lia.
Qed.

Lemma convert_shift_sizes h0 (w w' : W) iv o acc r j :
  fault w = false -> buf_live h0 w o acc -> outlen o = capacity_after j ->
  convert_shift L junk iv o w = (r, w') ->
  exists post m,
    log w' = log w ++ post /\
    realloc_sizes post
    = growth_sizes j m ++ (if r.1.1 =? 0 then [] else [r.2]).
Proof.
  intros Hf Hlive Hcap Hrun. unfold convert_shift in Hrun.
  assert (Hinv : buf_inv h0 w o acc) by (split; [done|by right]).
  step_in Hrun. destruct x as [rv o1].
  destruct (iconv_flush_inv L HL _ _ _ _ _ _ _ _ Hinv E)
    as (produced & Hinv1 & Hlive1 & Hlog1 & Herr1 & _ & _).
  pose proof (iconv_flush_outlen _ _ _ _ _ _ E) as Hlen1.
  specialize (Hlive1 Hlive). destruct rv as [n|e]; simpl in Hrun.
  - destruct (convert_finish_inv L junk _ _ _ _ _ _ (proj1 Hinv1) Hlive1 Hrun)
      as (_ & b & q & -> & _ & Hlog & _).
    eexists [_; _], 0%nat. split; [rewrite Hlog, Hlog1, <- app_assoc; done|done].
  - unfold bind, get_errno in Hrun. rewrite Herr1 in Hrun.
    destruct (Z.eqb_spec e E2BIG) as [->|Hne]; simpl in Hrun.
    + destruct (grow L junk o1 w0) as [[ok o2] w2] eqn:Eg.
      destruct (grow_inv L junk _ _ _ _ _ _ _ Hinv1 Eg)
        as (_ & _ & _ & Hlog2 &
            [(-> & -> & Hinv2 & _)|(-> & Hlen & _ & _ & Hf2 & Hlive2 & _ & _)]).
      * simpl in Hrun.
        destruct (convert_error_inv L _ _ _ _ _ _ Hinv2 Hrun)
          as (-> & _ & _ & Hlog & _).
        eexists [_; _; _], 1%nat. split.
        { rewrite Hlog, Hlog2, Hlog1, <- !app_assoc. done. }
        simpl. by rewrite Hlen1, Hcap, growth_size.
      * simpl in Hrun.
        assert (Hinv2 : buf_inv h0 w2 o2 (acc ++ produced))
          by (split; [done|by right]).
        destruct (iconv_flush L iv o2 w2) as [[rv3 o3] w3] eqn:Ef.
        destruct (iconv_flush_inv L HL _ _ _ _ _ _ _ _ Hinv2 Ef)
          as (produced3 & Hinv3 & Hlive3 & Hlog3 & _ & _ & _).
        specialize (Hlive3 Hlive2).
        destruct rv3 as [n3|e3]; simpl in Hrun.
        -- destruct (convert_finish_inv L junk _ _ _ _ _ _ (proj1 Hinv3) Hlive3 Hrun)
             as (_ & b & q & -> & _ & Hlog & _).
           eexists [_; _; _; _], 1%nat. split.
           { rewrite Hlog, Hlog3, Hlog2, Hlog1, <- !app_assoc. done. }
           simpl. by rewrite Hlen1, Hcap, growth_size, <- ?app_assoc.
        -- destruct (convert_error_inv L _ _ _ _ _ _ Hinv3 Hrun)
             as (-> & _ & _ & Hlog & _).
           eexists [_; _; _; _], 1%nat. split.
           { rewrite Hlog, Hlog3, Hlog2, Hlog1, <- !app_assoc. done. }
           simpl. by rewrite Hlen1, Hcap, growth_size.
    + destruct (convert_error_inv L _ _ _ _ _ _ Hinv1 Hrun)
        as (-> & _ & _ & Hlog & _).
      eexists [_; _], 0%nat. split; [rewrite Hlog, Hlog1, <- !app_assoc; done|done].
Qed.

(** X4.  The buffer grows geometrically: in every conversion the calls of
    [realloc] ask, in this order, for 16, 32, 64, ... bytes, each the double
    of the one before and at least one of them, and a conversion that
    succeeds ends with one more call that asks for the length it returns. *)
Theorem convert_growth_geometric (w w' : W) iv input ret out len :
  fault w = false ->
  convert L junk iv input w = ((ret, out, len), w') ->
  exists rv0 evs k,
    log w' = log w ++ EvIconv iv None None [] rv0 :: evs /\
    (0 < k)%nat /\
    realloc_sizes evs
    = growth_sizes 0 k ++ (if ret =? 0 then [] else [len]).
Proof.
  intros Hf Hrun. unfold convert in Hrun.
  step_in Hrun. rename x into rv0.
  destruct (iconv_reset_inv L HL _ _ _ _ Hf E) as (Hlog0 & Hh0 & Hf0 & _).
  step_in Hrun. destruct x as [[rv i1] o1].
  assert (Hinv0 : buf_inv (heap w) w0
            {| output := Null; outlen := 0; outbuf := Null; outbufsz := 0 |} []).
  { split; [done|]. left. by split_and!. }
  destruct (convert_loop_sizes _ _ _ _ _ _ _ _ _ _ _ _ 0%nat Hinv0 eq_refl
              (Nat.lt_succ_diag_r _) E0) as (loop & m & Hlog1 & Hsizes & Hcap).
  destruct (convert_loop_inv L junk HL _ _ _ _ _ _ _ _ _ _ _ _ Hinv0
              (Nat.lt_succ_diag_r _) E0) as (loop' & Hlog1' & _ & _ & Hinv1 & Hr).
  simpl in Hinv1, Hr. exists rv0.
  assert (Herror : forall r, convert_error L o1 w1 = (r, w') ->
    exists evs k, log w' = log w ++ EvIconv iv None None [] rv0 :: evs /\
      (0 < k)%nat /\
      realloc_sizes evs = growth_sizes 0 k ++ (if r.1.1 =? 0 then [] else [r.2])).
  { intros r Herr.
    destruct (convert_error_inv L _ _ _ _ _ _ Hinv1 Herr) as (-> & _ & _ & Hlog2 & _).
    exists (loop ++ [EvFree (output o1)]), (S m). split.
    { rewrite Hlog2, Hlog1, Hlog0. by rewrite <- !app_assoc. }
    split; [lia|]. rewrite realloc_sizes_app, Hsizes. simpl.
    by rewrite !app_nil_r. }
  destruct rv as [[n|e]|]; simpl in Hrun.
  - destruct Hr as (Hlive & _).
    destruct (convert_shift_sizes _ _ _ _ _ _ _ _ (proj1 Hinv1) Hlive
                (Hcap ltac:(done)) Hrun) as (post & m2 & Hlog2 & Hsizes2).
    exists (loop ++ post), (S m + m2)%nat. split.
    { rewrite Hlog2, Hlog1, Hlog0. by rewrite <- !app_assoc. }
    split; [lia|]. rewrite realloc_sizes_app, Hsizes, Hsizes2. simpl fst; simpl snd.
    by rewrite app_assoc, (growth_sizes_app 0 (S m) m2).
  - exact (Herror _ Hrun).
  - exact (Herror _ Hrun).
Qed.

(** ** What [Iconv::Convert] adds to the trace of [convert] *)

Lemma Iconv_Convert_log (w w1 w' : W) self input r v :
  convert L junk self input w = (r, w1) ->
  Iconv_Convert L junk self input w = (v, w') ->
  log w' = log w1 ++ (if (r.1.1 =? 0) && (errno w1 =? ENOMEM)
                      then [EvLowMemoryNotification] else []) /\
  (r.1.1 <> 0 -> v = Buffer_New r.1.2 r.2) /\
  (r.1.1 = 0 ->
   v = ThrowException (ErrnoException (errno w1) "iconv"
                         (error_message (spec_classify (errno w1))))).
Proof.
  intros Hconv Hrun. destruct r as [[ret out] len].
  destruct (Iconv_Convert_inv L junk _ _ _ _ _ Hrun)
    as (ret' & out' & len' & w1' & Hconv' & Hv).
  rewrite Hconv in Hconv'. injection Hconv' as <- <- <- <-.
  unfold Iconv_Convert, bind in Hrun. rewrite Hconv in Hrun. simpl in *.
  destruct (Z.eqb_spec ret 0) as [->|Hne]; simpl in *.
  - destruct Hv as [(? & _)|(_ & -> & _)]; [done|].
    split; [|done]. unfold get_errno in Hrun.
    destruct (Z.eqb_spec (errno w1) EINVAL) as [He|He].
    { apply (f_equal snd) in Hrun; simpl in Hrun; subst w'. rewrite He. simpl. by rewrite app_nil_r. }
    destruct (Z.eqb_spec (errno w1) EILSEQ) as [He'|He'].
    { apply (f_equal snd) in Hrun; simpl in Hrun; subst w'. rewrite He'. simpl. by rewrite app_nil_r. }
    destruct (Z.eqb_spec (errno w1) ENOMEM) as [He''|He''].
    { by apply (f_equal snd) in Hrun; simpl in Hrun; subst w'. }
    apply (f_equal snd) in Hrun; simpl in Hrun; subst w'. by rewrite app_nil_r.
  - injection Hrun as <- <-. rewrite app_nil_r. by split_and!.
Qed.

Lemma last_two {A} (xs ys : list A) a b c d :
  xs ++ [a; b] = ys ++ [c; d] -> a = c /\ b = d.
Proof.
  change (xs ++ [a; b]) with (xs ++ [a] ++ [b]).
  change (ys ++ [c; d]) with (ys ++ [c] ++ [d]).
  rewrite !app_assoc. intros [H ->]%app_inj_tail.
  by apply app_inj_tail in H as [_ ->].
Qed.

(** X5.  Output-too-small is never surfaced from the loop: when
    [Iconv::Convert] throws with the code [E2BIG], the calls it ends with
    are a flush that failed with [E2BIG], the growth of the buffer, the
    retried flush that failed with [E2BIG] again, and the [free] of the
    buffer. *)
Theorem E2BIG_only_from_retried_flush (w w' : W) self input exn :
  fault w = false ->
  Iconv_Convert L junk self input w = (ThrowException exn, w') ->
  exn_errno exn = E2BIG ->
  exists pre room produced p cap b room' produced',
    log w' = log w ++ pre ++
      [EvIconv self None (Some room) produced (Failed E2BIG);
       EvRealloc p cap (Ptr b 0);
       EvIconv self None (Some room') produced' (Failed E2BIG);
       EvFree (Ptr b 0)].
Proof.
  intros Hf Hrun Hcode.
  destruct (convert L junk self input w) as [r w1] eqn:Hconv.
  destruct (Iconv_Convert_log _ _ _ _ _ _ _ Hconv Hrun) as (Hlog' & Hok & Hfail).
  destruct (Z.eq_dec r.1.1 0) as [Hret|Hret]; [|by specialize (Hok Hret)].
  specialize (Hfail Hret). injection Hfail as ->. simpl in Hcode.
  rewrite Hret, Hcode in Hlog'. simpl in Hlog'. rewrite app_nil_r in Hlog'.
  destruct (convert_inv L junk HL _ _ _ _ _ Hf Hconv)
    as (rv0 & loop & post & Hlog & _ & _ & _ & Hcases & Hres).
  destruct Hres as [(_ & _ & pre' & f' & p' & Hevs & Hsig)|Hres].
  2:{ destruct Hres as (? & ? & ? & ? & ? & -> & _). done. }
  rewrite Hcode in Hsig.
  destruct Hcases as [(pre & f & p & -> & Hfail & -> & _)|[_ Htrace]].
  - exfalso. rewrite <- app_assoc in Hevs. simpl in Hevs.
    apply last_two in Hevs as [<- _].
    destruct f as [? ? []| | |? [] [] ? []|]; simpl in *; try done.
    destruct Hfail as [_ Hne]. congruence.
  - rewrite Hret in Htrace.
    inversion Htrace as [|? ? e ? Hne Hp|? ? ? ? Hp|? ? ? ? ? ? ? e Hp|]; subst.
    + exfalso. apply last_two in Hevs as [<- _]. simpl in Hsig. congruence.
    + exfalso.
      match type of Hevs with loop ++ [?a; ?b; ?c] = _ =>
        change (loop ++ [a; b; c]) with (loop ++ [a] ++ [b; c]) in Hevs end.
      rewrite app_assoc in Hevs. apply last_two in Hevs as [<- _].
      simpl in Hsig. unfold ENOMEM, E2BIG in Hsig. congruence.
    + match type of Hevs with loop ++ [?a; ?b; ?c; ?d] = _ =>
        change (loop ++ [a; b; c; d]) with (loop ++ [a; b] ++ [c; d]) in Hevs end.
      rewrite app_assoc in Hevs. apply last_two in Hevs as [<- _].
      simpl in Hsig. injection Hsig as ->.
      eexists (EvIconv self None None [] rv0 :: loop), _, _, _, _, _, _, _.
      rewrite Hlog', Hlog. by repeat (progress (simpl; rewrite <- ?app_assoc)).
Qed.

Lemma convert_no_notification (w w1 : W) iv input r :
  fault w = false ->
  convert L junk iv input w = (r, w1) ->
  exists evs, log w1 = log w ++ evs /\ EvLowMemoryNotification ∉ evs.
Proof.
  intros Hf Hconv.
  destruct (convert_inv L junk HL _ _ _ _ _ Hf Hconv)
    as (rv0 & loop & post & Hlog & Hloop & _ & _ & Hcases & _).
  eexists. split; [exact Hlog|].
  intros [[=]|[Hin|Hin]%elem_of_app]%elem_of_cons.
  - rewrite Forall_forall in Hloop. by apply Hloop in Hin.
  - destruct Hcases as [(_ & _ & p & _ & _ & -> & _)|[_ Htrace]].
    + by apply list_elem_of_singleton in Hin.
    + inversion Htrace; subst;
        repeat (apply elem_of_cons in Hin as [Hin|Hin]; [done|]);
        by apply elem_of_nil in Hin.
Qed.

(** X6.  [V8::LowMemoryNotification] is called exactly when the
    conversion throws for lack of memory, with the code [ENOMEM]: a
    conversion that succeeds or fails for another reason never calls it. *)
Theorem LowMemoryNotification_iff_ENOMEM (w w' : W) self input v :
  fault w = false ->
  Iconv_Convert L junk self input w = (v, w') ->
  exists evs,
    log w' = log w ++ evs /\
    (EvLowMemoryNotification ∈ evs <->
     v = ThrowException (ErrnoException ENOMEM "iconv" (Some "Out of memory."))).
Proof.
  intros Hf Hrun.
  destruct (convert L junk self input w) as [r w1] eqn:Hconv.
  destruct (Iconv_Convert_log _ _ _ _ _ _ _ Hconv Hrun) as (Hlog' & Hok & Hfail).
  destruct (convert_no_notification _ _ _ _ _ Hf Hconv) as (evs & Hlog & Hnone).
  eexists. split; [rewrite Hlog', Hlog, <- app_assoc; done|].
  rewrite elem_of_app.
  destruct (Z.eqb_spec r.1.1 0) as [Hret|Hret]; simpl.
  - rewrite (Hfail Hret).
    destruct (Z.eqb_spec (errno w1) ENOMEM) as [He|He].
    + rewrite He. split; [done|]. intros _. right. apply elem_of_cons. by left.
    + split.
      * intros [?|Hin]; [done|]. by apply elem_of_nil in Hin.
      * intros [= ? _]. done.
  - rewrite (Hok Hret). split; [|done].
    intros [?|Hin]; [done|]. by apply elem_of_nil in Hin.
Qed.

(** X7.  When the first allocation is refused, the conversion throws out
    of memory whatever the input and the library: [iconv] has been called
    for the reset only, nothing has been allocated and the heap is as it
    was. *)
Theorem Iconv_Convert_no_memory (w w' : W) self input v :
  fault w = false ->
  head (allocs w) <> Some true ->
  Iconv_Convert L junk self input w = (v, w') ->
  v = ThrowException (ErrnoException ENOMEM "iconv" (Some "Out of memory.")) /\
  heap w' = heap w /\ fault w' = false /\
  exists rv0,
    log w' = log w ++ [EvIconv self None None [] rv0; EvRealloc Null 16 Null;
                       EvFree Null; EvLowMemoryNotification].
Proof.
  intros Hf Hhead Hrun.
  destruct (convert L junk self input w) as [r w1] eqn:Hconv.
  destruct (Iconv_Convert_log _ _ _ _ _ _ _ Hconv Hrun) as (Hlog' & _ & Hfail).
  destruct (Iconv_Convert_inv L junk _ _ _ _ _ Hrun)
    as (ret & out & len & w1' & Hconv' & Hv).
  rewrite Hconv in Hconv'. injection Hconv' as -> <-.
  unfold convert in Hconv. step_in Hconv. rename x into rv0.
  destruct (iconv_reset_inv L HL _ _ _ _ Hf E) as (Hlog0 & Hh0 & Hf0 & Hallocs0).
  unfold bind at 1 in Hconv.
  destruct (convert_loop L junk _ self input _ _ w0) as [[[rvl il] ol] wl] eqn:Eloop.
  simpl in Eloop. step_in Eloop. destruct x as [ok o1].
  assert (Hgrow : ok = 0 /\ o1 = {| output := Null; outlen := 0; outbuf := Null; outbufsz := 0 |}
                  /\ w2 = add_log (EvRealloc Null 16 Null)
                            (set_errno ENOMEM (set_allocs (tail (allocs w0)) w0))).
  { unfold grow, bind in E0. simpl in E0. rewrite realloc_null in E0.
    rewrite Hallocs0 in E0 at 1.
    destruct (allocs w) as [|[] rest]; simpl in E0; try done;
      by injection E0 as <- <- <-. }
  destruct Hgrow as (-> & -> & ->). simpl in Eloop.
  injection Eloop as <- <- <- <-. simpl in Hconv.
  unfold convert_error, bind, free in Hconv. simpl in Hconv.
  injection Hconv as <- <- <- <-. simpl in *.
  specialize (Hfail eq_refl). subst v.
  destruct Hv as [(? & _)|(_ & _ & Hh' & Hf' & _)]; [done|].
  split; [done|]. split; [congruence|]. split; [congruence|].
  exists rv0. rewrite Hlog', Hlog0. by rewrite <- !app_assoc.
Qed.

Lemma iconv_reset_rv st (w w0 : W) iv rv :
  cds w !! iv = Some st -> iconv_reset L iv w = (rv, w0) ->
  rv = io_rv (lib_iconv L st None None).
Proof.
  intros Hcd Hr. unfold iconv_reset in Hr. step_in Hr.
  destruct x as [[rv1 consumed] n]. injection Hr as <- <-.
  by destruct (iconv_exec L _ _ _ _ _ _ _ _ _ Hcd E) as (? & _).
Qed.

(** X8.  Every conversion starts afresh: its first call resets the
    descriptor, and the first call of [iconv] on the input runs in the
    state that the reset left, on the whole input and with 16 bytes of
    room; what an earlier conversion left in the descriptor reaches the
    conversion through that reset only. *)
Theorem convert_starts_from_reset (w w' : W) iv input st r :
  fault w = false ->
  cds w !! iv = Some st ->
  convert L junk iv input w = (r, w') ->
  let r0 := lib_iconv L st None None in
  let r1 := lib_iconv L (io_state r0) (Some input) (Some 16) in
  exists q tail,
    log w' = log w ++ EvIconv iv None None [] (io_rv r0)
                      :: EvRealloc Null 16 q :: tail /\
    (is_null q = false ->
     exists tail',
       tail = EvIconv iv (Some input) (Some 16) (io_produced r1) (io_rv r1)
              :: tail').
Proof.
  intros Hf Hcd Hconv r0 r1. unfold convert in Hconv.
  step_in Hconv. rename x into rv0.
  destruct (iconv_reset_inv L HL _ _ _ _ Hf E) as (Hlog0 & Hh0 & Hf0 & Hallocs0).
  pose proof (iconv_reset_exec L _ _ _ _ _ Hcd E) as Hcd0. fold r0 in Hcd0.
  pose proof (iconv_reset_rv _ _ _ _ _ Hcd E) as Hrv0. fold r0 in Hrv0. subst rv0.
  assert (Hinv0 : buf_inv (heap w) w0
            {| output := Null; outlen := 0; outbuf := Null; outbufsz := 0 |} []).
  { split; [done|]. left. by split_and!. }
  unfold bind at 1 in Hconv.
  destruct (convert_loop L junk (S (length (allocs w0))) iv input
              {| inbuf := 0; inbufsz := Z.of_nat (length input) |}
              {| output := Null; outlen := 0; outbuf := Null; outbufsz := 0 |} w0)
    as [[[rvl il] ol] wl] eqn:Eloop.
  (* what the rest of [convert] adds to the trace *)
  assert (Hrest : forall acc, buf_inv (heap w) wl ol acc ->
            (forall rv, rvl = Some rv -> buf_live (heap w) wl ol acc) ->
            exists post, log w' = log wl ++ post).
  { intros acc Hinvl Hlivel. destruct rvl as [[n|e]|]; simpl in Hconv.
    - destruct (convert_shift_inv L junk HL _ _ _ _ _ _ _ (proj1 Hinvl)
                  (Hlivel _ eq_refl) Hconv) as (post & ? & _). eauto.
    - destruct (convert_error_inv L _ _ _ _ _ _ Hinvl Hconv) as (_ & _ & _ & ? & _).
      eauto.
    - destruct (convert_error_inv L _ _ _ _ _ _ Hinvl Hconv) as (_ & _ & _ & ? & _).
      eauto. }
  simpl in Eloop. unfold bind at 1 in Eloop.
  destruct (grow L junk _ w0) as [[ok o1] wg] eqn:E0.
  destruct (grow_inv L junk _ _ _ _ _ _ _ Hinv0 E0)
    as (_ & Hcds1 & Hallocs1 & Hlog1 &
        [(-> & -> & Hinv1 & _)|(-> & Hlen1 & Hsz1 & _ & Hf1 & Hlive1 & (rest & Hrest1) & _)]).
  - simpl in Eloop, Hlog1. injection Eloop as <- <- <- <-.
    destruct (Hrest [] Hinv1 ltac:(done)) as (post & Hlog).
    exists Null, post. split; [|done].
    rewrite Hlog, Hlog1, Hlog0. by repeat (progress (simpl; rewrite <- ?app_assoc)).
  - simpl in Hlen1, Hsz1, Hlog1, Eloop. rewrite Hlen1 in Hsz1.
    change (16 `max` (0 * 2)) with 16 in *. change (16 - 0) with 16 in Hsz1.
    assert (Hinv1 : buf_inv (heap w) wg o1 []) by (split; [done|by right]).
    unfold bind at 1 in Eloop.
    destruct (iconv_input L iv input _ o1 wg) as [[[rv i2] o2] wi] eqn:E1.
    rewrite <- Hcds1 in Hcd0.
    destruct (iconv_input_exec L _ _ _ _ _ _ _ _ _ _ Hcd0 E1) as (Hrv & _ & Hlog2).
    simpl in Hrv, Hlog2.
    rewrite ?Nat2Z.id, ?firstn_all, Hsz1 in Hrv, Hlog2.
    change (drop (Z.to_nat 0) input) with input in Hrv, Hlog2.
    fold r1 in Hrv, Hlog2.
    destruct (iconv_input_inv L HL _ _ _ _ _ _ _ _ _ _ _ Hinv1 E1)
      as (inp & produced & Hinv2 & Hlive2 & _ & _ & Hallocs2 & _ & _).
    specialize (Hlive2 Hlive1).
    assert (Hnonnull : is_null (output o1) = false).
    { destruct Hlive1 as (b & ? & -> & _). done. }
    unfold bind at 1, get_errno at 1 in Eloop.
    assert (Hmore : exists evs, log w' = log wi ++ evs).
    { destruct (is_failed rv && (errno wi =? E2BIG)).
      - assert (Hlt : (length (allocs wi) < length (allocs w0))%nat)
          by (rewrite Hallocs2, Hallocs1, Hrest1; simpl; lia).
        destruct (convert_loop_inv L junk HL _ _ _ _ _ _ _ _ _ _ _ _ Hinv2 Hlt Eloop)
          as (evs & Hlog3 & _ & _ & Hinv3 & Hr).
        destruct (Hrest _ Hinv3) as (post & Hlog).
        { intros rv' ->. by destruct Hr as (? & _). }
        exists (evs ++ post). by rewrite Hlog, Hlog3, <- app_assoc.
      - injection Eloop as <- <- <- <-.
        destruct (Hrest _ Hinv2 ltac:(done)) as (post & Hlog). eauto. }
    destruct Hmore as (evs & Hlog).
    eexists (output o1), _. split.
    + rewrite Hlog, Hlog2, Hlog1, Hlog0.
      by repeat (progress (simpl; rewrite <- ?app_assoc)).
    + intros _. rewrite Hrv. eauto.
Qed.

(** X9.  A conversion whose output fits the first 16 bytes makes five
    calls: when the first allocation succeeds, [iconv] converts the input
    at once and the flush succeeds, these are the reset, the [realloc] of 16
    bytes, the call of [iconv] on the whole input in the state that the
    reset left, the flush, and the [realloc] that trims the buffer to what
    the two calls wrote.  When they wrote a byte or more, the buffer
    returned is a block that holds these bytes, in this order: the block
    that the last [realloc] returned, of exactly that length, or the block
    of 16 bytes when that [realloc] failed.  When they wrote nothing, the
    last [realloc] freed the buffer and returned null, and the pointer
    returned is the one to the freed block. *)
Theorem convert_single_pass (w w' : W) iv input st rest v :
  fault w = false ->
  cds w !! iv = Some st ->
  allocs w = true :: rest ->
  let st0 := io_state (lib_iconv L st None None) in
  let r1 := lib_iconv L st0 (Some input) (Some 16) in
  let r2 := lib_iconv L (io_state r1) None
              (Some (16 - Z.of_nat (length (io_produced r1)))) in
  let written := io_produced r1 ++ io_produced r2 in
  is_failed (io_rv r1) = false ->
  is_failed (io_rv r2) = false ->
  Iconv_Convert L junk iv input w = (v, w') ->
  exists b rv0 q1 q,
    v = Buffer_New (Ptr b 0) (Z.of_nat (length written)) /\
    heap w !! b = None /\
    log w' = log w ++
      [EvIconv iv None None [] rv0;
       EvRealloc Null 16 q1;
       EvIconv iv (Some input) (Some 16) (io_produced r1) (io_rv r1);
       EvIconv iv None (Some (16 - Z.of_nat (length (io_produced r1))))
         (io_produced r2) (io_rv r2);
       EvRealloc q1 (Z.of_nat (length written)) q] /\
    (written = [] ->
     q1 = Ptr b 0 /\ q = Null /\ heap w' = heap w /\
     owned (heap w') (Ptr b 0) = None) /\
    (written <> [] ->
     exists bytes,
       heap w' = <[b := bytes]> (heap w) /\
       take (length written) bytes = written /\
       (if is_null q then q1 = Ptr b 0
        else q = Ptr b 0 /\ length bytes = length written)).
Proof.
  intros Hf Hcd Hallocs st0 r1 r2 written Hr1 Hr2 Hrun.
  destruct (convert_one_round L junk HL w w' iv input st rest v
              Hf Hcd Hallocs Hr1 Hr2 Hrun)
    as (b & rv0 & q1 & q & Hv & Hb & Hlog & Hnone & Hsome).
  exists b, rv0, q1, q. split_and!; try done.
  intros Hw. destruct (Hnone Hw) as (-> & -> & Hh). split_and!; try done.
  simpl. by rewrite Hh.
Qed.

(** ** The read cursor *)

Lemma fed_inputs_app evs1 evs2 :
  fed_inputs (evs1 ++ evs2) = fed_inputs evs1 ++ fed_inputs evs2.
Proof. unfold fed_inputs. by rewrite flat_map_app. Qed.

Lemma shift_trace_no_input iv post z : shift_trace iv post z -> fed_inputs post = [].
Proof. by inversion 1. Qed.

Lemma iconv_input_cursor st iv input i i' o o' rv (w w' : W) :
  cds w !! iv = Some st ->
  iconv_input L iv input i o w = ((rv, i', o'), w') ->
  let r := lib_iconv L st
             (Some (take (Z.to_nat (inbufsz i)) (drop (Z.to_nat (inbuf i)) input)))
             (Some (outbufsz o)) in
  inbuf i' = inbuf i + io_consumed r /\
  inbufsz i' = size_t (inbufsz i - io_consumed r).
Proof.
  intros Hcd Hrun. unfold iconv_input, bind, iconv in Hrun.
  rewrite Hcd in Hrun. simpl in Hrun. by injection Hrun as _ <- _ _.
Qed.

Lemma convert_loop_cursor fuel :
  forall h0 (w w' : W) iv input st i i' o o' acc r,
  iconv_reads L -> Z.of_nat (length input) < SIZE_MOD ->
  0 <= inbuf i -> 0 <= inbufsz i ->
  inbuf i + inbufsz i = Z.of_nat (length input) ->
  cds w !! iv = Some st ->
  buf_inv h0 w o acc -> (length (allocs w) < fuel)%nat ->
  convert_loop L junk fuel iv input i o w = ((r, i', o'), w') ->
  exists evs,
    log w' = log w ++ evs /\
    input_calls L st (drop (Z.to_nat (inbuf i)) input) evs.
Proof.
  induction fuel as [|fuel IH];
    intros h0 w w' iv input st i i' o o' acc r Hreads Hsize Hi1 Hi2 Hi3 Hcd
           Hinv Hfuel Hrun;
    [lia|].
  simpl in Hrun. step_in Hrun. destruct x as [ok o1].
  destruct (grow_inv L junk _ _ _ _ _ _ _ Hinv E)
    as (_ & Hcds & Hallocs & Hlog &
        [(-> & -> & _)|(-> & Hlen & _ & _ & Hf1 & Hlive1 & (rest & Hrest) & _)]).
  - simpl in Hrun. injection Hrun as <- <- <- <-.
    eexists [_]. split; [exact Hlog|done].
  - simpl in Hrun. step_in Hrun. destruct x as [[rv i2] o2].
    assert (Hinv1 : buf_inv h0 w0 o1 acc) by (split; [done|by right]).
    rewrite <- Hcds in Hcd.
    destruct (iconv_input_inv L HL _ _ _ _ _ _ _ _ _ _ _ Hinv1 E0)
      as (inp & produced & Hinv2 & _ & _ & _ & Hallocs2 & Hinp & _).
    destruct (iconv_input_exec L _ _ _ _ _ _ _ _ _ _ Hcd E0) as (Hrv & Hcd2 & Hlog2).
    destruct (iconv_input_cursor _ _ _ _ _ _ _ _ _ _ Hcd E0) as (Hbuf & Hsz).
    assert (Hwhole : inp = drop (Z.to_nat (inbuf i)) input).
    { rewrite Hinp. apply take_ge. rewrite length_drop. lia. }
    rewrite <- Hinp in Hrv, Hcd2, Hlog2, Hbuf, Hsz.
    rewrite Hwhole in Hrv, Hcd2, Hlog2, Hbuf, Hsz.
    set (cur := drop (Z.to_nat (inbuf i)) input) in *.
    set (res := lib_iconv L st (Some cur) (Some (outbufsz o1))) in *.
    pose proof (Hreads st cur (Some (outbufsz o1))) as Hc. fold res in Hc.
    assert (Hcur : Z.of_nat (length cur) = inbufsz i).
    { unfold cur. rewrite length_drop. lia. }
    assert (Hsz' : inbufsz i2 = inbufsz i - io_consumed res).
    { rewrite Hsz. unfold size_t. apply Z.mod_small. lia. }
    assert (Hnext : drop (Z.to_nat (inbuf i2)) input
                    = drop (Z.to_nat (io_consumed res)) cur).
    { unfold cur. rewrite drop_drop. f_equal. lia. }
    unfold bind, get_errno in Hrun.
    destruct (is_failed rv && (errno w1 =? E2BIG)).
    + apply IH with (h0 := h0) (acc := acc ++ produced) (st := io_state res) in Hrun;
        [|done|done|lia|lia|lia|done|done
         |rewrite Hallocs2, Hallocs, Hrest in *; simpl in *; lia].
      destruct Hrun as (evs & Hlog3 & Hfed).
      eexists (_ :: _ :: evs). split.
      { rewrite Hlog3, Hlog2, Hlog.
        by repeat (progress (simpl; rewrite <- ?app_assoc)). }
      simpl. fold res. rewrite <- Hnext. by split_and!.
    + injection Hrun as <- <- <- <-.
      eexists [_; _]. split.
      { rewrite Hlog2, Hlog.
        by repeat (progress (simpl; rewrite <- ?app_assoc)). }
      simpl. fold res. by split_and!.
Qed.

(** X10.  No byte of the input is skipped or read twice.  With a library
    that reads no more than it is given, the calls of [iconv] that the
    loop makes are the library replayed on the input: the first call gets
    the whole input, in the state that the reset left; each later call
    gets what the call before left, that is its input without the bytes
    that the library reported as consumed, in the state that the call
    before left; and the calls after the loop, which write out the shift
    sequence, get no input. *)
Theorem convert_input_cursor (w w' : W) iv input st r :
  iconv_reads L -> Z.of_nat (length input) < SIZE_MOD ->
  fault w = false ->
  cds w !! iv = Some st ->
  convert L junk iv input w = (r, w') ->
  let r0 := lib_iconv L st None None in
  exists loop post,
    log w' = log w ++ EvIconv iv None None [] (io_rv r0) :: loop ++ post /\
    Forall (loop_event iv) loop /\
    input_calls L (io_state r0) input loop /\
    fed_inputs post = [].
Proof.
  intros Hreads Hsize Hf Hcd Hrun r0. unfold convert in Hrun.
  step_in Hrun. rename x into rv0.
  destruct (iconv_reset_inv L HL _ _ _ _ Hf E) as (Hlog0 & Hh0 & Hf0 & _).
  pose proof (iconv_reset_exec L _ _ _ _ _ Hcd E) as Hcd0. fold r0 in Hcd0.
  assert (rv0 = io_rv r0) as ->.
  { unfold iconv_reset, bind in E.
    destruct (iconv L iv None None w) as [[[rv1 c1] n1] wr] eqn:Er.
    injection E as <- <-.
    by destruct (iconv_exec L _ _ _ _ _ _ _ _ _ Hcd Er) as (-> & _). }
  step_in Hrun. destruct x as [[rv i1] o1].
  assert (Hinv0 : buf_inv (heap w) w0
            {| output := Null; outlen := 0; outbuf := Null; outbufsz := 0 |} []).
  { split; [done|]. left. by split_and!. }
  pose proof E0 as Ecur.
  eapply convert_loop_cursor in Ecur as (loop & Hlog1 & Hfed);
    [|first [done|exact Hcd0|exact Hinv0|simpl; lia]..].
  destruct (convert_loop_inv L junk HL _ _ _ _ _ _ _ _ _ _ _ _ Hinv0
              (Nat.lt_succ_diag_r _) E0)
    as (loop' & Hlog1' & Hloop & _ & Hinv1 & Hr).
  assert (loop' = loop) as ->.
  { rewrite Hlog1 in Hlog1'. by apply app_inv_head in Hlog1'. }
  simpl in Hinv1, Hr, Hfed.
  assert (Herror : forall r, convert_error L o1 w1 = (r, w') ->
    exists loop post,
      log w' = log w ++ EvIconv iv None None [] (io_rv r0) :: loop ++ post /\
      Forall (loop_event iv) loop /\
      input_calls L (io_state r0) input loop /\ fed_inputs post = []).
  { intros r' Herr.
    destruct (convert_error_inv L _ _ _ _ _ _ Hinv1 Herr) as (_ & _ & _ & Hlog2 & _).
    exists loop, [EvFree (output o1)]. split_and!; try done.
    rewrite Hlog2, Hlog1, Hlog0. by rewrite <- !app_assoc. }
  destruct rv as [[n|e]|]; simpl in Hrun.
  - destruct Hr as (Hlive & _).
    destruct (convert_shift_inv L junk HL _ _ _ _ _ _ _ (proj1 Hinv1) Hlive Hrun)
      as (post & Hlog2 & _ & Htrace & _).
    exists loop, post. split_and!; try done.
    + rewrite Hlog2, Hlog1, Hlog0. by rewrite <- !app_assoc.
    + by eapply shift_trace_no_input.
  - exact (Herror _ Hrun).
  - exact (Herror _ Hrun).
Qed.

(** ** The argument of [Iconv::Convert] *)

Lemma Iconv_Convert_value (w : W) self input :
  (exists data len, (Iconv_Convert L junk self input w).1 = Buffer_New data len) \/
  (exists exn, (Iconv_Convert L junk self input w).1 = ThrowException exn /\
               exn_syscall exn = "iconv").
Proof.
  unfold Iconv_Convert, bind.
  destruct (convert L junk self input w) as [[[ok out] len] w1].
  destruct (negb (ok =? 0)); [left; by eexists _, _|right].
  unfold get_errno, LowMemoryNotification, modify, ret.
  repeat (case_match; simpl); by eexists.
Qed.

(** X11.  [Iconv::Convert] answers [undefined] exactly when its argument
    is neither a string nor a buffer, and then it has called nothing and
    changed nothing; for a string or a buffer the caller gets a buffer or
    an exception of the call "iconv". *)
Theorem Iconv_Convert_args_undefined (w : W) self arg :
  ((Iconv_Convert_args L junk V self arg w).1 = Undefined <->
   arg = JsObject \/ arg = JsOther) /\
  ((Iconv_Convert_args L junk V self arg w).1 = Undefined ->
   (Iconv_Convert_args L junk V self arg w).2 = w) /\
  ((Iconv_Convert_args L junk V self arg w).1 <> Undefined ->
   (exists data len,
      (Iconv_Convert_args L junk V self arg w).1 = Buffer_New data len) \/
   (exists exn,
      (Iconv_Convert_args L junk V self arg w).1 = ThrowException exn /\
      exn_syscall exn = "iconv")).
Proof.
  assert (Hnever : forall input,
    (Iconv_Convert L junk self input w).1 <> Undefined).
  { intros input Hu.
    destruct (Iconv_Convert_value w self input)
      as [(data & len & Hv)|(exn & Hv & _)]; congruence. }
  destruct arg as [s|data| |]; simpl.
  - split_and!; [split; [by intros ?%Hnever|by intros [|]]
                |by intros ?%Hnever|intros _; apply Iconv_Convert_value].
  - split_and!; [split; [by intros ?%Hnever|by intros [|]]
                |by intros ?%Hnever|intros _; apply Iconv_Convert_value].
  - split_and!; [split; [by left|done]|done|done].
  - split_and!; [split; [by right|done]|done|done].
Qed.

End Lifecycle_properties.

(** * More on the fixup of encoding names *)

Lemma lookup_alias_cases name table :
  (lookup_alias name table = name /\
   Forall (fun a => lower name <> lower a.1) table) \/
  lookup_alias name table ∈ table.*2.
Proof.
  induction table as [|[alias canonical] table IH]; simpl.
  - left. by split.
  - case_decide as Hd.
    + right. apply elem_of_cons. by left.
    + destruct IH as [[-> Hall]|Hin].
      * left. split; [done|]. by constructor.
      * right. apply elem_of_cons. by right.
Qed.

Lemma lookup_alias_hit name alias canonical :
  (alias, canonical) ∈ utf_aliases -> lower name = lower alias ->
  fix_spec name = canonical.
Proof.
  intros Hin Hl. unfold fix_spec, utf_aliases in *. cbn [lookup_alias].
  rewrite Hl.
  repeat (apply elem_of_cons in Hin as [[= -> ->]|Hin]; [by vm_compute|]).
  by apply elem_of_nil in Hin.
Qed.

Lemma canonical_fixed canonical :
  canonical ∈ utf_aliases.*2 -> fixEncodingName canonical = canonical.
Proof.
  unfold utf_aliases. simpl. intros Hin.
  repeat (apply elem_of_cons in Hin as [->|Hin]; [by vm_compute|]).
  by apply elem_of_nil in Hin.
Qed.

(** X12.  [fixEncodingName] returns its argument or one of the eight
    canonical names, and a second pass changes nothing: the names it
    returns are names it leaves alone. *)
Theorem fixEncodingName_idempotent name :
  (fixEncodingName name = name \/ fixEncodingName name ∈ utf_aliases.*2) /\
  fixEncodingName (fixEncodingName name) = fixEncodingName name.
Proof.
  rewrite (fixEncodingName_spec name). unfold fix_spec.
  destruct (lookup_alias_cases name utf_aliases) as [[Hname _]|Hin].
  - rewrite Hname. split; [by left|].
    rewrite fixEncodingName_spec. exact Hname.
  - split; [by right|]. by apply canonical_fixed.
Qed.

(** X13.  A name that is one of the aliases, in any letter case, and the
    canonical name of that alias are the same to [Iconv::New], as the source
    encoding and as the target encoding: the two constructions make the same
    call of [iconv_open] and return the same. *)
Theorem Iconv_New_alias (L : iconv_library) (V : v8_strings)
    (w : world (cd_state L)) (a c other : js_string V) alias canonical :
  (alias, canonical) ∈ utf_aliases ->
  lower (AsciiValue V a) = lower alias ->
  AsciiValue V c = canonical ->
  Iconv_New L V a other w = Iconv_New L V c other w /\
  Iconv_New L V other a w = Iconv_New L V other c w.
Proof.
  intros Hin Hl Hc. unfold Iconv_New.
  assert (Ha : fixEncodingName (AsciiValue V a) = canonical).
  { rewrite fixEncodingName_spec. by eapply lookup_alias_hit. }
  assert (Hc' : fixEncodingName (AsciiValue V c) = canonical).
  { rewrite Hc. apply canonical_fixed.
    apply (list_elem_of_fmap_2 snd _ _ Hin). }
  by rewrite Ha, Hc'.
Qed.

Lemma lookup_alias_found name table :
  lookup_alias name table = name \/
  exists alias canonical,
    (alias, canonical) ∈ table /\ lower name = lower alias /\
    lookup_alias name table = canonical.
Proof.
  induction table as [|[alias canonical] table IH]; simpl; [by left|].
  case_decide as Hd.
  - right. exists alias, canonical. split_and!; try done.
    apply elem_of_cons. by left.
  - destruct IH as [->|(a & c & Hin & Hl & ->)]; [by left|].
    right. exists a, c. split_and!; try done. apply elem_of_cons. by right.
Qed.

(** X14.  Letter case apart, all that [fixEncodingName] ever does to a
    name is to insert "-" after its first three characters, which are
    "UTF" then: the name returned is the argument, or it reads, in lower
    case, "utf-" followed by the argument in lower case without its first
    three characters. *)
Theorem fixEncodingName_inserts_hyphen name :
  fixEncodingName name = name \/
  lower (fixEncodingName name) = String.append "utf-" (str_from (lower name) 3).
Proof.
  rewrite fixEncodingName_spec. unfold fix_spec.
  destruct (lookup_alias_found name utf_aliases)
    as [->|(alias & canonical & Hin & Hl & ->)]; [by left|].
  right. rewrite Hl. unfold utf_aliases in Hin.
  repeat (apply elem_of_cons in Hin as [[= -> ->]|Hin]; [by vm_compute|]).
  by apply elem_of_nil in Hin.
Qed.

(** * More runs of the small libraries *)

Lemma toy_copy_consumed n : forall inp room consumed out,
  (length inp <= n)%nat ->
  consumed <= (toy_copy inp room consumed out).1.1
           <= consumed + Z.of_nat (length inp).
Proof.
  induction n as [|n IH]; intros [|c rest] room consumed out Hn;
    simpl in *; try lia.
  destruct (Byte.eqb c xff); [simpl; lia|].
  destruct (Byte.eqb c xc3).
  - destruct rest as [|d rest]; [simpl; lia|].
    destruct room as [|[|room]]; simpl; try lia.
    destruct n as [|n]; [simpl in Hn; lia|].
    pose proof (IH rest room (consumed + 2) (out ++ [c; d])
                  ltac:(simpl in *; lia)).
    simpl in *. lia.
  - destruct room as [|room]; simpl; try lia.
    pose proof (IH rest room (consumed + 1) (out ++ [c]) ltac:(lia)).
    lia.
Qed.

Lemma toy_reads : iconv_reads toy.
Proof.
  intros st inp room. change (lib_iconv toy) with toy_iconv.
  unfold toy_iconv. destruct room as [room|]; [|simpl; lia].
  destruct inp as [|c inp]; [simpl; lia|].
  destruct (toy_stateful st && negb (toy_shifted st)).
  - destruct (room <=? 0); [simpl; lia|].
    pose proof (toy_copy_consumed _ (c :: inp) (Z.to_nat room - 1) 0 [x0e] (le_n _))
      as Hcopy.
    destruct (toy_copy (c :: inp) (Z.to_nat room - 1) 0 [x0e]) as [[k out] rv].
    simpl in *. lia.
  - pose proof (toy_copy_consumed _ (c :: inp) (Z.to_nat room) 0 [] (le_n _))
      as Hcopy.
    destruct (toy_copy (c :: inp) (Z.to_nat room) 0 []) as [[k out] rv].
    simpl in *. lia.
Qed.

Lemma tail_contract : iconv_contract tail_library.
Proof.
  split.
  - intros st inp room Hroom. change (lib_iconv tail_library) with tail_iconv.
    unfold tail_iconv. destruct inp as [inp|]; [simpl; lia|].
    destruct (Z.ltb_spec room 20); simpl; lia.
  - intros st [inp|]; reflexivity.
Qed.

Lemma Iconv_Convert_then_FreeMemory_witness :
  fault ex_hello_world = false /\
  0 < 5 /\
  ex_hello_run = (Buffer_New (Ptr 1 0) 5, ex_hello_run.2) /\
  (exists evs,
     log ex_hello_run.2 = log ex_hello_world ++ evs /\
     Forall (fun e => forall p, e <> EvFree p) evs) /\
  is_Some (owned (heap ex_hello_run.2) (Ptr 1 0)) /\
  heap (FreeMemory toy (Ptr 1 0) ex_hello_run.2).2 = heap ex_hello_world /\
  fault (FreeMemory toy (Ptr 1 0) ex_hello_run.2).2 = false /\
  log (FreeMemory toy (Ptr 1 0) ex_hello_run.2).2
  = log ex_hello_run.2 ++ [EvFree (Ptr 1 0)].
Proof.
  assert (Hlen : 0 < 5) by lia.
  assert (Hrun : ex_hello_run = (Buffer_New (Ptr 1 0) 5, ex_hello_run.2))
    by (vm_compute; reflexivity).
  split; [reflexivity|]. split; [exact Hlen|]. split; [exact Hrun|].
  exact (Iconv_Convert_then_FreeMemory toy x00 toy_contract ex_hello_world _ 0
           (bytes_of "hello") _ _ eq_refl Hlen Hrun).
Defined.

Lemma Iconv_Convert_empty_then_FreeMemory_witness :
  fault ex_dangling_world = false /\
  ex_dangling_run = (Buffer_New (Ptr 0 0) 0, ex_dangling_run.2) /\
  (exists pre,
     log ex_dangling_run.2
     = log ex_dangling_world ++ pre ++ [EvRealloc (Ptr 0 0) 0 Null]) /\
  Ptr 0 0 <> Null /\
  heap ex_dangling_run.2 = heap ex_dangling_world /\
  owned (heap ex_dangling_run.2) (Ptr 0 0) = None /\
  fault ex_dangling_run.2 = false /\
  fault (FreeMemory toy (Ptr 0 0) ex_dangling_run.2).2 = true.
Proof.
  assert (Hrun : ex_dangling_run = (Buffer_New (Ptr 0 0) 0, ex_dangling_run.2))
    by (vm_compute; reflexivity).
  split; [reflexivity|]. split; [exact Hrun|].
  exact (Iconv_Convert_empty_then_FreeMemory toy x00 toy_contract
           ex_dangling_world _ 0 [] _ eq_refl Hrun).
Defined.

Lemma Iconv_New_then_dtor_witness :
  ex_new_run = (This 1, ex_new_run.2) /\
  is_Some (cds ex_new_run.2 !! 1%nat) /\
  cds (Iconv_dtor toy 1 ex_new_run.2).2 = cds ex_new_world /\
  heap (Iconv_dtor toy 1 ex_new_run.2).2 = heap ex_new_world.
Proof.
  assert (Hrun : ex_new_run = (This 1, ex_new_run.2)) by (vm_compute; reflexivity).
  split; [exact Hrun|].
  exact (Iconv_New_then_dtor toy ascii_strings ex_new_world _
           ("ASCII" : js_string ascii_strings) ("utf8" : js_string ascii_strings)
           1%nat Hrun).
Defined.

Lemma Iconv_Convert_other_descriptors_witness :
  1%nat <> 0%nat /\
  cds (Iconv_Convert toy x00 0 (bytes_of "hello") ex_two_world).2 !! 1%nat
  = cds ex_two_world !! 1%nat /\
  (is_Some (cds ex_two_world !! 0%nat) ->
   is_Some (cds (Iconv_Convert toy x00 0 (bytes_of "hello") ex_two_world).2 !! 0%nat)).
Proof.
  assert (Hne : 1%nat <> 0%nat) by lia.
  split; [exact Hne|].
  exact (Iconv_Convert_other_descriptors toy x00 ex_two_world 0
           (bytes_of "hello") 1 Hne).
Defined.

Lemma Iconv_New_alias_witness :
  ("UTF16LE", "UTF-16LE") ∈ utf_aliases /\
  lower (AsciiValue ascii_strings "utf16le") = lower "UTF16LE" /\
  AsciiValue ascii_strings "UTF-16LE" = "UTF-16LE" /\
  Iconv_New toy ascii_strings "utf16le" "ASCII" ex_new_world
  = Iconv_New toy ascii_strings "UTF-16LE" "ASCII" ex_new_world /\
  Iconv_New toy ascii_strings "ASCII" "utf16le" ex_new_world
  = Iconv_New toy ascii_strings "ASCII" "UTF-16LE" ex_new_world.
Proof.
  assert (Hin : ("UTF16LE", "UTF-16LE") ∈ utf_aliases)
    by (apply elem_of_cons; right; apply elem_of_cons; left; reflexivity).
  split; [exact Hin|]. split; [reflexivity|]. split; [reflexivity|].
  exact (Iconv_New_alias toy ascii_strings ex_new_world
           ("utf16le" : js_string ascii_strings)
           ("UTF-16LE" : js_string ascii_strings)
           ("ASCII" : js_string ascii_strings)
           "UTF16LE" "UTF-16LE" Hin eq_refl eq_refl).
Defined.

Lemma convert_growth_geometric_witness :
  fault ex_long_world = false /\
  ex_long_convert.1 = (1, Ptr 0 0, 40) /\
  exists rv0 evs k,
    log ex_long_convert.2
    = log ex_long_world ++ EvIconv 0 None None [] rv0 :: evs /\
    (0 < k)%nat /\
    realloc_sizes evs
    = growth_sizes 0 k ++ (if ex_long_convert.1.1.1 =? 0 then []
                           else [ex_long_convert.1.2]).
Proof.
  split; [reflexivity|]. split; [vm_compute; reflexivity|].
  exact (convert_growth_geometric toy x00 toy_contract ex_long_world _ 0
           (bytes_of "hello world, this is more than sixteen") _ _ _
           eq_refl (run_eq4 ex_long_convert)).
Defined.

Lemma E2BIG_only_from_retried_flush_witness :
  fault ex_tail_world = false /\
  ex_tail_run = (ThrowException (ErrnoException E2BIG "iconv" None), ex_tail_run.2) /\
  exn_errno (ErrnoException E2BIG "iconv" None) = E2BIG /\
  exists pre room produced p cap b room' produced',
    log ex_tail_run.2 = log ex_tail_world ++ pre ++
      [EvIconv 0 None (Some room) produced (Failed E2BIG);
       EvRealloc p cap (Ptr b 0);
       EvIconv 0 None (Some room') produced' (Failed E2BIG);
       EvFree (Ptr b 0)].
Proof.
  assert (Hrun : ex_tail_run
    = (ThrowException (ErrnoException E2BIG "iconv" None), ex_tail_run.2))
    by (vm_compute; reflexivity).
  split; [reflexivity|]. split; [exact Hrun|]. split; [reflexivity|].
  exact (E2BIG_only_from_retried_flush tail_library x00 tail_contract
           ex_tail_world _ 0 (bytes_of "hi") _ eq_refl Hrun eq_refl).
Defined.

Lemma LowMemoryNotification_iff_ENOMEM_witness :
  fault (toy_world [] stateless) = false /\
  exists evs,
    log ex_empty_oom_run.2 = log (toy_world [] stateless) ++ evs /\
    (EvLowMemoryNotification ∈ evs <->
     ex_empty_oom_run.1
     = ThrowException (ErrnoException ENOMEM "iconv" (Some "Out of memory."))).
Proof.
  split; [reflexivity|].
  exact (LowMemoryNotification_iff_ENOMEM toy x00 toy_contract
           (toy_world [] stateless) _ 0 [] _ eq_refl (run_eq ex_empty_oom_run)).
Defined.

Lemma Iconv_Convert_no_memory_witness :
  fault ex_refused_world = false /\
  head (allocs ex_refused_world) <> Some true /\
  ex_refused_run.1
  = ThrowException (ErrnoException ENOMEM "iconv" (Some "Out of memory.")) /\
  heap ex_refused_run.2 = heap ex_refused_world /\
  fault ex_refused_run.2 = false /\
  exists rv0,
    log ex_refused_run.2 = log ex_refused_world ++
      [EvIconv 0 None None [] rv0; EvRealloc Null 16 Null; EvFree Null;
       EvLowMemoryNotification].
Proof.
  assert (Hhead : head (allocs ex_refused_world) <> Some true)
    by (simpl; discriminate).
  split; [reflexivity|]. split; [exact Hhead|].
  exact (Iconv_Convert_no_memory toy x00 toy_contract ex_refused_world _ 0
           (bytes_of "abc") _ eq_refl Hhead (run_eq ex_refused_run)).
Defined.

Lemma convert_single_pass_witness :
  fault ex_hello_world = false /\
  cds ex_hello_world !! 0%nat = Some stateless /\
  allocs ex_hello_world = [true; true] /\
  let st0 := io_state (lib_iconv toy stateless None None) in
  let r1 := lib_iconv toy st0 (Some (bytes_of "hello")) (Some 16) in
  let r2 := lib_iconv toy (io_state r1) None
              (Some (16 - Z.of_nat (length (io_produced r1)))) in
  let written := io_produced r1 ++ io_produced r2 in
  is_failed (io_rv r1) = false /\
  is_failed (io_rv r2) = false /\
  exists b rv0 q1 q,
    ex_hello_run.1 = Buffer_New (Ptr b 0) (Z.of_nat (length written)) /\
    heap ex_hello_world !! b = None /\
    log ex_hello_run.2 = log ex_hello_world ++
      [EvIconv 0 None None [] rv0;
       EvRealloc Null 16 q1;
       EvIconv 0 (Some (bytes_of "hello")) (Some 16) (io_produced r1) (io_rv r1);
       EvIconv 0 None (Some (16 - Z.of_nat (length (io_produced r1))))
         (io_produced r2) (io_rv r2);
       EvRealloc q1 (Z.of_nat (length written)) q] /\
    (written = [] ->
     q1 = Ptr b 0 /\ q = Null /\ heap ex_hello_run.2 = heap ex_hello_world /\
     owned (heap ex_hello_run.2) (Ptr b 0) = None) /\
    (written <> [] ->
     exists bytes,
       heap ex_hello_run.2 = <[b := bytes]> (heap ex_hello_world) /\
       take (length written) bytes = written /\
       (if is_null q then q1 = Ptr b 0
        else q = Ptr b 0 /\ length bytes = length written)).
Proof.
  split; [reflexivity|]. split; [reflexivity|]. split; [reflexivity|].
  split; [reflexivity|]. split; [reflexivity|].
  exact (convert_single_pass toy x00 toy_contract ex_hello_world _ 0
           (bytes_of "hello") stateless [true] _
           eq_refl eq_refl eq_refl eq_refl eq_refl (run_eq ex_hello_run)).
Defined.

Lemma convert_starts_from_reset_witness :
  fault ex_retry_world = false /\
  cds ex_retry_world !! 0%nat = Some stateful /\
  let r0 := lib_iconv toy stateful None None in
  let r1 := lib_iconv toy (io_state r0) (Some (bytes_of "0123456789abcde"))
              (Some 16) in
  exists q tail,
    log ex_retry_run.2 = log ex_retry_world ++
      EvIconv 0 None None [] (io_rv r0) :: EvRealloc Null 16 q :: tail /\
    (is_null q = false ->
     exists tail',
       tail = EvIconv 0 (Some (bytes_of "0123456789abcde")) (Some 16)
                (io_produced r1) (io_rv r1) :: tail').
Proof.
  split; [reflexivity|]. split; [reflexivity|].
  exact (convert_starts_from_reset toy x00 toy_contract ex_retry_world _ 0
           (bytes_of "0123456789abcde") stateful _
           eq_refl eq_refl (run_eq ex_retry_run)).
Defined.

Lemma convert_input_cursor_witness :
  Z.of_nat (length ex_cursor_input) < SIZE_MOD /\
  fault ex_cursor_world = false /\
  cds ex_cursor_world !! 0%nat = Some stateless /\
  ex_cursor_convert.1 = (0, Null, 0) /\
  let r0 := lib_iconv toy stateless None None in
  exists loop post,
    log ex_cursor_convert.2
    = log ex_cursor_world ++ EvIconv 0 None None [] (io_rv r0) :: loop ++ post /\
    Forall (loop_event 0) loop /\
    input_calls toy (io_state r0) ex_cursor_input loop /\
    fed_inputs post = [].
Proof.
  assert (Hsize : Z.of_nat (length ex_cursor_input) < SIZE_MOD) by reflexivity.
  split; [exact Hsize|]. split; [reflexivity|]. split; [reflexivity|].
  split; [vm_compute; reflexivity|].
  exact (convert_input_cursor toy x00 toy_contract ex_cursor_world _ 0
           ex_cursor_input stateless _ toy_reads Hsize eq_refl eq_refl
           (run_eq ex_cursor_convert)).
Defined.
